(** * Rotary positional embeddings (rope.py)

    A shallow embedding of [reshape_for_broadcast] and [apply_rotary_emb]
    of rope.py, and of the part of the tensor library they call.

    A tensor is a dtype tag, a shape and its row-major (contiguous) data.
    Element values are real numbers: float32 arithmetic is idealised as
    exact arithmetic on [R], so rounding, NaN and infinities are outside
    the model.  Python exceptions are the [Raise] results of an error
    monad. *)

From Stdlib Require Import List Arith ZArith Lia Bool Reals Lra.
Import ListNotations.

Set Implicit Arguments.

(** ** Exceptions *)

Inductive exn : Type :=
| AssertionError
| RuntimeError
| ValueError
| IndexError.

Inductive result (A : Type) : Type :=
| Ok (a : A)
| Raise (e : exn).

Arguments Ok {A} a.
Arguments Raise {A} e.

Definition bind {A B : Type} (m : result A) (f : A -> result B) : result B :=
  match m with
  | Ok a => f a
  | Raise e => Raise e
  end.

Notation "x <- m ;; k" := (bind m (fun x => k))
  (at level 61, m at next level, right associativity).
Notation "' p <- m ;; k" := (bind m (fun x => let p := x in k))
  (at level 61, p pattern, m at next level, right associativity).

(** ** Element types and type promotion *)

Inductive dtype : Type :=
| Bool8 | UInt8 | Int8 | Int16 | Int32 | Int64
| Float16 | BFloat16 | Float32 | Float64.

Definition dtype_eqb (a b : dtype) : bool :=
  match a, b with
  | Bool8, Bool8 | UInt8, UInt8 | Int8, Int8 | Int16, Int16
  | Int32, Int32 | Int64, Int64 | Float16, Float16
  | BFloat16, BFloat16 | Float32, Float32 | Float64, Float64 => true
  | _, _ => false
  end.

Definition is_floating (d : dtype) : bool :=
  match d with
  | Float16 | BFloat16 | Float32 | Float64 => true
  | _ => false
  end.

(** Width rank inside the integer and the floating categories. *)
Definition dtype_rank (d : dtype) : nat :=
  match d with
  | Bool8 => 0
  | UInt8 => 1 | Int8 => 1
  | Int16 => 2 | Int32 => 3 | Int64 => 4
  | Float16 => 5 | BFloat16 => 5
  | Float32 => 6 | Float64 => 7
  end.

(** torch.promote_types on the dtypes above. *)
Definition promote_types (a b : dtype) : dtype :=
  if dtype_eqb a b then a
  else match a, b with
       | UInt8, Int8 | Int8, UInt8 => Int16
       | Float16, BFloat16 | BFloat16, Float16 => Float32
       | _, _ => if dtype_rank a <? dtype_rank b then b else a
       end.

(** Result dtype of an operation between a tensor and a Python float:
    a floating tensor keeps its dtype, any other becomes the default
    dtype float32. *)
Definition promote_float_scalar (d : dtype) : dtype :=
  if is_floating d then d else Float32.

(** Result dtype of a true division of a tensor by a Python int. *)
Definition promote_true_divide (d : dtype) : dtype :=
  if is_floating d then d else Float32.

(** ** Tensors *)

Record tensor : Type := mkTensor {
  t_dtype : dtype;
  shape : list nat;
  data : list R
}.

Fixpoint numel (s : list nat) : nat :=
  match s with
  | [] => 1
  | d :: s' => d * numel s'
  end.

Definition ndim (t : tensor) : nat := length (shape t).

(** A tensor is well formed when it holds one value per index. *)
Definition wf (t : tensor) : Prop := length (data t) = numel (shape t).

(** Row-major offset of a multi-index, and its inverse. *)
Fixpoint ravel (s idx : list nat) : nat :=
  match s, idx with
  | _ :: s', i :: idx' => i * numel s' + ravel s' idx'
  | _, _ => 0
  end.

Fixpoint unravel (s : list nat) (n : nat) : list nat :=
  match s with
  | [] => []
  | _ :: s' => (n / numel s') :: unravel s' (n mod numel s')
  end.

Definition get (t : tensor) (idx : list nat) : R :=
  nth (ravel (shape t) idx) (data t) 0%R.

(** [Tensor.float()]: the values are kept, the dtype becomes float32. *)
Definition float (t : tensor) : tensor :=
  mkTensor Float32 (shape t) (data t).

(** ** Shape inference of reshape and view

    A requested shape is a list of Python ints in which one entry may be
    [-1].  The library multiplies the other entries into [newsize]; the
    request is accepted when [newsize] is the number of elements, or when
    there is a [-1], [newsize] is positive and divides the number of
    elements.  With a [-1] and [newsize = 0] the request is ambiguous and
    refused. *)

Definition known_size (spec : list Z) : nat :=
  numel (map Z.to_nat (filter (fun d => negb (d =? -1)%Z) spec)).

Definition infer_size (spec : list Z) (n : nat) : result (list nat) :=
  if existsb (fun d => (d <? -1)%Z) spec then Raise RuntimeError
  else
    let newsize := known_size spec in
    match count_occ Z.eq_dec spec (-1)%Z with
    | 0 => if newsize =? n then Ok (map Z.to_nat spec) else Raise RuntimeError
    | 1 => if (0 <? newsize) && (n mod newsize =? 0)
           then Ok (map (fun d => if (d =? -1)%Z then n / newsize
                                  else Z.to_nat d) spec)
           else Raise RuntimeError
    | _ => Raise RuntimeError
    end.

(** [Tensor.reshape] and [Tensor.view] of a contiguous tensor: the data
    is kept in row-major order under the new shape. *)
Definition reshape (t : tensor) (spec : list Z) : result tensor :=
  s <- infer_size spec (numel (shape t)) ;;
  Ok (mkTensor (t_dtype t) s (data t)).

Definition view (t : tensor) (spec : list Z) : result tensor :=
  reshape t spec.

(** ** Broadcasting *)

Definition broadcast_dim (x y : nat) : option nat :=
  if x =? y then Some x
  else if x =? 1 then Some y
  else if y =? 1 then Some x
  else None.

(** Shapes are aligned at their last axis: both arguments are reversed. *)
Fixpoint broadcast_rev (a b : list nat) : option (list nat) :=
  match a, b with
  | [], _ => Some b
  | _, [] => Some a
  | x :: a', y :: b' =>
      match broadcast_dim x y, broadcast_rev a' b' with
      | Some d, Some r => Some (d :: r)
      | _, _ => None
      end
  end.

Definition broadcast_shapes (a b : list nat) : option (list nat) :=
  option_map (@rev nat) (broadcast_rev (rev a) (rev b)).

(** A shape padded on the left with axes of size 1 up to rank [n]. *)
Definition pad_shape (n : nat) (s : list nat) : list nat :=
  repeat 1 (n - length s) ++ s.

(** Index read in an operand of (padded) shape [s] for the index [idx] of
    the broadcast result: an axis of size 1 is always read at 0. *)
Definition bsel (d i : nat) : nat := if d =? 1 then 0 else i.

Fixpoint bidx (s idx : list nat) : list nat :=
  match s, idx with
  | d :: s', i :: idx' => bsel d i :: bidx s' idx'
  | _, _ => []
  end.

(** The values of a tensor of shape [s] expanded to shape [ts]. *)
Definition expand_data (s : list nat) (l : list R) (ts : list nat) : list R :=
  let ps := pad_shape (length ts) s in
  map (fun n => nth (ravel ps (bidx ps (unravel ts n))) l 0%R)
      (seq 0 (numel ts)).

(** Elementwise binary operation between two tensors, with broadcasting
    and type promotion. *)
Definition binop (f : R -> R -> R) (a b : tensor) : result tensor :=
  match broadcast_shapes (shape a) (shape b) with
  | None => Raise RuntimeError
  | Some ts =>
      Ok (mkTensor (promote_types (t_dtype a) (t_dtype b)) ts
            (map (fun p => f (fst p) (snd p))
                 (combine (expand_data (shape a) (data a) ts)
                          (expand_data (shape b) (data b) ts))))
  end.

Definition tmul := binop Rmult.
Definition tsub := binop Rminus.
Definition tadd := binop Rplus.

(** ** Constructors and views used by rope.py *)

(** The Python ints the tensor library accepts as a 64-bit bound. *)
Definition int64_range (z : Z) : Prop :=
  (- 2 ^ 63 <= z < 2 ^ 63)%Z.

(** [torch.arange(start, stop, step)] on Python ints: an int64 vector of
    [ceil((stop - start) / step)] values.  The bounds are taken to fit in
    64 bits ([int64_range]); a larger Python int, which the library
    refuses with an OverflowError before it looks at the bounds, is
    outside this definition, and the theorems about the exception a call
    raises assume [int64_range head_dim].  Memory is not modelled: a
    vector of any length can be built. *)
Definition arange (start stop step : Z) : result tensor :=
  if (step =? 0)%Z then Raise RuntimeError
  else if ((0 <? step)%Z && (stop <? start)%Z)
          || ((step <? 0)%Z && (start <? stop)%Z) then Raise RuntimeError
  else
    let n := Z.to_nat (- ((start - stop) / step)) in
    Ok (mkTensor Int64 [n]
          (map (fun i => IZR (start + Z.of_nat i * step)) (seq 0 n))).

(** [Tensor.unsqueeze(dim)] for a non-negative [dim]. *)
Definition unsqueeze (t : tensor) (dim : nat) : result tensor :=
  if dim <=? ndim t
  then Ok (mkTensor (t_dtype t)
             (firstn dim (shape t) ++ 1 :: skipn dim (shape t)) (data t))
  else Raise IndexError.

(** The indexing expression [t[None, :, None, :]]. *)
Definition index_none_slice_none_slice (t : tensor) : result tensor :=
  match shape t with
  | a :: b :: rest =>
      Ok (mkTensor (t_dtype t) (1 :: a :: 1 :: b :: rest) (data t))
  | _ => Raise IndexError
  end.

(** [Tensor.unbind(-1)]: the slices along the last axis. *)
Definition unbind_last (t : tensor) : result (list tensor) :=
  match rev (shape t) with
  | [] => Raise RuntimeError
  | n :: _ =>
      let s := removelast (shape t) in
      Ok (map (fun k =>
                 mkTensor (t_dtype t) s
                   (map (fun j => nth (j * n + k) (data t) 0%R)
                        (seq 0 (numel s))))
              (seq 0 n))
  end.

Definition shape_eqb (a b : list nat) : bool :=
  if list_eq_dec Nat.eq_dec a b then true else false.

(** [torch.stack(ts, dim=-1)]: tensors of one shape joined along a new
    last axis. *)
Definition stack_last (ts : list tensor) : result tensor :=
  match ts with
  | [] => Raise RuntimeError
  | t0 :: rest =>
      if forallb (fun t => shape_eqb (shape t) (shape t0)) rest
      then
        let k := length ts in
        Ok (mkTensor
              (fold_left promote_types (map t_dtype rest) (t_dtype t0))
              (shape t0 ++ [k])
              (map (fun n => nth (n / k) (data (nth (n mod k) ts t0)) 0%R)
                   (seq 0 (numel (shape t0) * k))))
      else Raise RuntimeError
  end.

(** Tuple unpacking into two and into four names. *)
Definition unpack2 {A : Type} (l : list A) : result (A * A) :=
  match l with
  | [a; b] => Ok (a, b)
  | _ => Raise ValueError
  end.

Definition unpack4 {A : Type} (l : list A) : result (A * A * A * A) :=
  match l with
  | [a; b; c; d] => Ok (a, b, c, d)
  | _ => Raise ValueError
  end.

(** Operations between a tensor and a Python scalar. *)
Definition tsin (t : tensor) : tensor :=
  mkTensor (promote_float_scalar (t_dtype t)) (shape t) (map sin (data t)).

Definition tcos (t : tensor) : tensor :=
  mkTensor (promote_float_scalar (t_dtype t)) (shape t) (map cos (data t)).

(** [t / n] for a Python int [n]. *)
Definition true_divide_int (t : tensor) (n : Z) : tensor :=
  mkTensor (promote_true_divide (t_dtype t)) (shape t)
    (map (fun x => x / IZR n)%R (data t)).

(** [base ** t] for a Python float [base]; for a positive base this is
    [Rpower].  [Rpower base x] is [exp (x * ln base)], which is 1 for a
    base that is not positive, where the code yields 0, infinities or
    NaN: the theorems about rotated values assume [0 < theta], except
    where the exponent is 0 and both give 1. *)
Definition scalar_pow (base : R) (t : tensor) : tensor :=
  mkTensor (promote_float_scalar (t_dtype t)) (shape t)
    (map (Rpower base) (data t)).

(** [c / t] for a Python float [c]. *)
Definition scalar_rdiv (c : R) (t : tensor) : tensor :=
  mkTensor (promote_float_scalar (t_dtype t)) (shape t)
    (map (fun x => c / x)%R (data t)).

(** ** rope.py *)

Definition reshape_for_broadcast (freqs_cis x : tensor) : result tensor :=
  let nd := ndim x in
  if negb ((0 <=? 1) && (1 <? nd)) then Raise AssertionError
  else if negb (shape_eqb (shape freqs_cis)
                  [nth 1 (shape x) 0; last (shape x) 0])
  then Raise AssertionError
  else
    let shape' :=
      map (fun p => if (fst p =? 1) || (fst p =? nd - 1) then snd p else 1)
          (combine (seq 0 nd) (shape x)) in
    view freqs_cis (map Z.of_nat shape').

(** The split of the last axis into (real, imag) pairs, lines 59-60. *)
Definition split_pairs (t : tensor) : result (tensor * tensor) :=
  r <- reshape (float t) (map Z.of_nat (removelast (shape t)) ++ [-1; 2]%Z) ;;
  parts <- unbind_last r ;;
  unpack2 parts.

Definition apply_rotary_emb (query key : tensor) (head_dim max_seq_len : Z)
    (theta : R) : result (tensor * tensor) :=
  '(_, seqlen, _, _) <- unpack4 (shape query) ;;
  '(query_real, query_imag) <- split_pairs query ;;
  '(key_real, key_imag) <- split_pairs key ;;
  ar <- arange 0 head_dim 2 ;;
  let inv_freq :=
    scalar_rdiv 1 (scalar_pow theta (true_divide_int (float ar) head_dim)) in
  pos <- arange 0 (Z.of_nat seqlen) 1 ;;
  positions <- unsqueeze pos 1 ;;
  angles <- tmul positions inv_freq ;;
  let sin_angles := tsin angles in
  let cos_angles := tcos angles in
  sin_angles <- index_none_slice_none_slice sin_angles ;;
  cos_angles <- index_none_slice_none_slice cos_angles ;;
  qrc <- tmul query_real cos_angles ;;
  qis <- tmul query_imag sin_angles ;;
  query_rotated_real <- tsub qrc qis ;;
  qrs <- tmul query_real sin_angles ;;
  qic <- tmul query_imag cos_angles ;;
  query_rotated_imag <- tadd qrs qic ;;
  krc <- tmul key_real cos_angles ;;
  kis <- tmul key_imag sin_angles ;;
  key_rotated_real <- tsub krc kis ;;
  krs <- tmul key_real sin_angles ;;
  kic <- tmul key_imag cos_angles ;;
  key_rotated_imag <- tadd krs kic ;;
  qst <- stack_last [query_rotated_real; query_rotated_imag] ;;
  query_out <- reshape qst (map Z.of_nat (shape query)) ;;
  kst <- stack_last [key_rotated_real; key_rotated_imag] ;;
  key_out <- reshape kst (map Z.of_nat (shape key)) ;;
  Ok (query_out, key_out).

(** The rotation of one (real, imag) pair by an angle: the elementwise
    content of lines 91-92 and 97-98. *)
Definition rotate (p : R * R) (angle : R) : R * R :=
  (fst p * cos angle - snd p * sin angle,
   fst p * sin angle + snd p * cos angle)%R.

(** The frequency schedule and angle table as the specification writes
    them. *)
Definition spec_inv_freq (theta : R) (head_dim i : nat) : R :=
  Rpower theta (- (2 * INR i / INR head_dim)).

Definition spec_angle (theta : R) (head_dim pos i : nat) : R :=
  (INR pos * spec_inv_freq theta head_dim i)%R.

(** [idx] is an index of a tensor of shape [s]. *)
Definition in_range (idx s : list nat) : Prop := Forall2 lt idx s.

(** The values of slice [k] of [unbind(-1)] on a tensor whose last axis
    has size 2. *)
Definition pair_slice (k : nat) (t : tensor) (n : nat) : list R :=
  map (fun j => nth (j * 2 + k) (data t) 0%R) (seq 0 n).


(** The number of frequencies [torch.arange(0, head_dim, 2)] yields, and
    the frequency and angle the code computes from them (lines 71-77). *)
Definition n_freq (head_dim : Z) : nat := Z.to_nat (- ((0 - head_dim) / 2)).

Definition code_inv_freq (theta : R) (head_dim : Z) (i : nat) : R :=
  (1 / Rpower theta (IZR (0 + Z.of_nat i * 2) / IZR head_dim))%R.

Definition code_angle (theta : R) (head_dim : Z) (pos i : nat) : R :=
  (IZR (0 + Z.of_nat pos * 1) * code_inv_freq theta head_dim i)%R.

(** The dot product of two (real, imag) pairs. *)
Definition pair_dot (p q : R * R) : R := (fst p * fst q + snd p * snd q)%R.

(** The (real, imag) pair number [i] of the vector at (batch, position,
    head) of a 4-dimensional tensor. *)
Definition pair_at (t : tensor) (bi si hi i : nat) : R * R :=
  (get t [bi; si; hi; 2 * i], get t [bi; si; hi; 2 * i + 1]).

(** ** Sample tensors *)

(** A float64 query of shape (1, 2, 1, 2) and a float16 key of shape
    (1, 2, 2, 2). *)
Definition sample_query : tensor :=
  mkTensor Float64 [1; 2; 1; 2] [1; 2; 3; 4]%R.

Definition sample_key : tensor :=
  mkTensor Float16 [1; 2; 2; 2] [1; 0; 0; 1; 2; 2; 3; 5]%R.

(** A query and a key of sequence length 1. *)
Definition sample_query1 : tensor :=
  mkTensor Float32 [2; 1; 1; 2] [1; 2; 3; 4]%R.

Definition sample_key1 : tensor :=
  mkTensor Float32 [1; 1; 1; 2] [5; 6]%R.

(** A query whose last axis (4) is wider than the declared head_dim. *)
Definition sample_wide : tensor :=
  mkTensor Float32 [1; 2; 1; 4] [1; 2; 3; 4; 5; 6; 7; 8]%R.

(** A query whose last axis is odd. *)
Definition sample_odd : tensor :=
  mkTensor Float32 [1; 1; 1; 3] [1; 2; 3]%R.

(** A square frequency table, a rank-2 and a rank-1 target. *)
Definition sample_freqs : tensor :=
  mkTensor Float32 [2; 2] [1; 2; 3; 4]%R.

Definition sample_rank2 : tensor :=
  mkTensor Float32 [1; 2] [1; 2]%R.

Definition sample_rank1 : tensor :=
  mkTensor Float32 [2] [1; 2]%R.

(** A frequency table with one entry and a rank-2 target with one
    column. *)
Definition sample_freqs1 : tensor :=
  mkTensor Float32 [1; 1] [7]%R.

Definition sample_column : tensor :=
  mkTensor Float32 [3; 1] [1; 2; 3]%R.

(** The list comprehension of line 23 on the axes numbered from [k]:
    axis 1 and axis [nd - 1] keep their size, every other axis becomes 1.
    [reshape_for_broadcast] uses it with [k = 0]. *)
Definition masked_shape (nd k : nat) (sx : list nat) : list nat :=
  map (fun p => if (fst p =? 1) || (fst p =? nd - 1) then snd p else 1)
      (combine (seq k (length sx)) sx).

(** A tensor of shape (1, 2, 1, 2) holding one vector at both
    positions. *)
Definition sample_repeat : tensor :=
  mkTensor Float32 [1; 2; 1; 2] [1; 2; 1; 2]%R.

(** ** Whole vectors

    A sum over the [m] pairs of a vector, the squared Euclidean norm of
    the vector at (batch, position, head) and the dot product of two such
    vectors (the attention score of a query and a key vector). *)
Definition sum_pairs (f : nat -> R) (m : nat) : R :=
  fold_right Rplus 0%R (map f (seq 0 m)).

Definition vec_sq_norm (t : tensor) (bi si hi m : nat) : R :=
  sum_pairs (fun i => pair_dot (pair_at t bi si hi i) (pair_at t bi si hi i))
            m.

Definition vec_dot (a : tensor) (ba sa ha : nat)
    (c : tensor) (bc sc hc : nat) (m : nat) : R :=
  sum_pairs (fun i => pair_dot (pair_at a ba sa ha i) (pair_at c bc sc hc i))
            m.

(** A query with an empty batch axis and a vector-free tensor of width
    0. *)
Definition sample_empty : tensor :=
  mkTensor Float32 [0; 2; 1; 2] [].

Definition sample_width0 : tensor :=
  mkTensor Float32 [1; 2; 1; 0] [].
(** * Properties *)

(** ** The error monad *)

Lemma bind_Ok_inv (A B : Type) (m : result A) (f : A -> result B) (r : B) :
  bind m f = Ok r -> exists a, m = Ok a /\ f a = Ok r.
Proof.
  destruct m as [a | e]; simpl; intros H.
  - exists a; split; [reflexivity | exact H].
  - discriminate H.
Qed.

(** ** Lists read by position *)

Lemma nth_map_seq (A : Type) (f : nat -> A) (n len : nat) (d : A) :
  n < len -> nth n (map f (seq 0 len)) d = f n.
Proof.
  intros Hn.
  rewrite (nth_indep _ d (f 0)) by (rewrite length_map, length_seq; exact Hn).
  rewrite map_nth, seq_nth by exact Hn.
  reflexivity.
Qed.

Lemma nth_map_combine (f : R -> R -> R) (l1 l2 : list R) (n : nat) :
  n < length l1 -> length l1 = length l2 ->
  nth n (map (fun p => f (fst p) (snd p)) (combine l1 l2)) 0%R
  = f (nth n l1 0%R) (nth n l2 0%R).
Proof.
  revert l2 n; induction l1 as [| x l1 IH]; intros [| y l2] n Hn Hlen;
    simpl in *; try lia; try discriminate.
  destruct n as [| n]; [reflexivity |].
  apply IH; lia.
Qed.

Lemma list_ext_nth (l1 l2 : list R) :
  length l1 = length l2 ->
  (forall n, n < length l1 -> nth n l1 0%R = nth n l2 0%R) ->
  l1 = l2.
Proof.
  intros Hlen Hnth.
  apply (nth_ext l1 l2 0%R 0%R Hlen Hnth).
Qed.

(** ** Row-major indexing *)

Lemma ravel_lt (s idx : list nat) :
  in_range idx s -> ravel s idx < numel s.
Proof.
  induction 1 as [| i d idx s Hi _ IH]; simpl; [lia | nia].
Qed.

Lemma unravel_ravel (s idx : list nat) :
  in_range idx s -> unravel s (ravel s idx) = idx.
Proof.
  induction 1 as [| i d idx s Hi Hr IH]; simpl; [reflexivity |].
  pose proof (ravel_lt Hr) as Hlt.
  assert (Hne : numel s <> 0) by lia.
  rewrite Nat.div_add_l, Nat.div_small, Nat.add_0_r by assumption.
  rewrite Nat.add_comm, Nat.Div0.mod_add, Nat.mod_small by assumption.
  rewrite IH; reflexivity.
Qed.

Lemma ravel_unravel (s : list nat) (n : nat) :
  n < numel s -> ravel s (unravel s n) = n.
Proof.
  revert n; induction s as [| d s IH]; simpl; intros n Hn; [lia |].
  assert (Hne : numel s <> 0) by (intros E; rewrite E in Hn; lia).
  rewrite IH by (apply Nat.mod_upper_bound; exact Hne).
  pose proof (Nat.div_mod_eq n (numel s)); lia.
Qed.

Lemma unravel_in_range (s : list nat) (n : nat) :
  n < numel s -> in_range (unravel s n) s.
Proof.
  revert n; induction s as [| d s IH]; simpl; intros n Hn; [constructor |].
  assert (Hne : numel s <> 0) by (intros E; rewrite E in Hn; lia).
  constructor.
  - apply Nat.Div0.div_lt_upper_bound; lia.
  - apply IH, Nat.mod_upper_bound; exact Hne.
Qed.

(** Two well-formed tensors of one shape that agree at every index hold
    the same data. *)
Lemma data_ext (a b : tensor) :
  shape a = shape b -> wf a -> wf b ->
  (forall idx, in_range idx (shape a) -> get a idx = get b idx) ->
  data a = data b.
Proof.
  unfold wf, get; intros Hs Ha Hb Hget.
  apply list_ext_nth; [congruence |].
  intros n Hn; rewrite Ha in Hn.
  specialize (Hget _ (unravel_in_range _ Hn)).
  rewrite <- Hs in Hget.
  rewrite ravel_unravel in Hget by exact Hn.
  exact Hget.
Qed.

(** ** Broadcasting *)

Lemma broadcast_dim_refl (x : nat) : broadcast_dim x x = Some x.
Proof. unfold broadcast_dim; rewrite Nat.eqb_refl; reflexivity. Qed.

Lemma broadcast_dim_1_r (x : nat) : broadcast_dim x 1 = Some x.
Proof.
  unfold broadcast_dim; destruct (x =? 1) eqn:E; reflexivity.
Qed.

Lemma broadcast_dim_1_l (y : nat) : broadcast_dim 1 y = Some y.
Proof.
  unfold broadcast_dim; destruct (1 =? y) eqn:E; [| reflexivity].
  apply Nat.eqb_eq in E; subst; reflexivity.
Qed.

Lemma expand_data_length (s : list nat) (l : list R) (ts : list nat) :
  length (expand_data s l ts) = numel ts.
Proof. unfold expand_data; rewrite length_map, length_seq; reflexivity. Qed.

Lemma expand_data_nth (s : list nat) (l : list R) (ts idx : list nat) :
  in_range idx ts ->
  nth (ravel ts idx) (expand_data s l ts) 0%R
  = nth (ravel (pad_shape (length ts) s)
           (bidx (pad_shape (length ts) s) idx)) l 0%R.
Proof.
  intros Hidx; unfold expand_data.
  rewrite nth_map_seq by (apply ravel_lt; exact Hidx).
  rewrite unravel_ravel by exact Hidx.
  reflexivity.
Qed.

(** What a broadcast binary operation returns, and what it holds at an
    index of the result. *)
Lemma binop_Ok (f : R -> R -> R) (a b : tensor) (ts : list nat) :
  broadcast_shapes (shape a) (shape b) = Some ts ->
  exists t, binop f a b = Ok t
    /\ shape t = ts
    /\ t_dtype t = promote_types (t_dtype a) (t_dtype b)
    /\ wf t
    /\ forall idx, in_range idx ts ->
         get t idx
         = f (nth (ravel (pad_shape (length ts) (shape a))
                     (bidx (pad_shape (length ts) (shape a)) idx))
                (data a) 0%R)
             (nth (ravel (pad_shape (length ts) (shape b))
                     (bidx (pad_shape (length ts) (shape b)) idx))
                (data b) 0%R).
Proof.
  intros Hb; unfold binop; rewrite Hb.
  eexists; split; [reflexivity |].
  split; [reflexivity |]. split; [reflexivity |].
  split.
  - unfold wf; simpl.
    rewrite length_map, length_combine, !expand_data_length.
    apply Nat.min_id.
  - intros idx Hidx; unfold get; simpl.
    rewrite nth_map_combine.
    + rewrite !expand_data_nth by exact Hidx; reflexivity.
    + rewrite expand_data_length; apply ravel_lt; exact Hidx.
    + rewrite !expand_data_length; reflexivity.
Qed.

Lemma bsel_lt (d i : nat) : i < d -> bsel d i = i.
Proof.
  unfold bsel; intros Hi; destruct (d =? 1) eqn:E; [| reflexivity].
  apply Nat.eqb_eq in E; lia.
Qed.

Lemma bidx_same (s idx : list nat) : in_range idx s -> bidx s idx = idx.
Proof.
  induction 1 as [| i d idx s Hi _ IH]; simpl; [reflexivity |].
  rewrite bsel_lt, IH by exact Hi; reflexivity.
Qed.

Lemma broadcast_rev_refl (s : list nat) : broadcast_rev s s = Some s.
Proof.
  induction s as [| d s IH]; simpl; [reflexivity |].
  rewrite broadcast_dim_refl, IH; reflexivity.
Qed.

Lemma broadcast_shapes_refl (s : list nat) : broadcast_shapes s s = Some s.
Proof.
  unfold broadcast_shapes; rewrite broadcast_rev_refl; simpl.
  rewrite rev_involutive; reflexivity.
Qed.

Lemma pad_shape_same (s : list nat) : pad_shape (length s) s = s.
Proof. unfold pad_shape; rewrite Nat.sub_diag; reflexivity. Qed.

(** A binary operation between two tensors of one shape. *)
Lemma binop_same_shape (f : R -> R -> R) (a b : tensor) :
  shape a = shape b ->
  exists t, binop f a b = Ok t
    /\ shape t = shape a
    /\ t_dtype t = promote_types (t_dtype a) (t_dtype b)
    /\ wf t
    /\ forall idx, in_range idx (shape a) ->
         get t idx = f (get a idx) (get b idx).
Proof.
  intros Hs.
  destruct (@binop_Ok f a b (shape a)) as (t & Ht & Hsh & Hd & Hwf & Hget).
  { rewrite <- Hs; apply broadcast_shapes_refl. }
  exists t; repeat (split; [assumption |]).
  intros idx Hidx; rewrite (Hget idx Hidx).
  rewrite <- Hs, pad_shape_same, bidx_same by exact Hidx.
  unfold get; rewrite <- Hs; reflexivity.
Qed.

(** ** Shape inference *)

Lemma numel_app (p l : list nat) : numel (p ++ l) = numel p * numel l.
Proof.
  induction p as [| d p IH]; simpl; [lia |].
  rewrite IH; lia.
Qed.

Lemma existsb_neg_of_nat (p : list nat) :
  existsb (fun d => (d <? -1)%Z) (map Z.of_nat p) = false.
Proof.
  induction p as [| d p IH]; simpl; [reflexivity |].
  rewrite IH, orb_false_r; apply Z.ltb_ge; lia.
Qed.

Lemma count_minus_one_of_nat (p : list nat) :
  count_occ Z.eq_dec (map Z.of_nat p) (-1)%Z = 0.
Proof.
  induction p as [| d p IH]; simpl; [reflexivity |].
  destruct (Z.eq_dec (Z.of_nat d) (-1)); [lia | exact IH].
Qed.

Lemma filter_minus_one_of_nat (p : list nat) :
  filter (fun d => negb (d =? -1)%Z) (map Z.of_nat p) = map Z.of_nat p.
Proof.
  induction p as [| d p IH]; simpl; [reflexivity |].
  rewrite IH.
  destruct (Z.of_nat d =? -1)%Z eqn:E; [apply Z.eqb_eq in E; lia |].
  reflexivity.
Qed.

Lemma to_nat_of_nat_list (p : list nat) : map Z.to_nat (map Z.of_nat p) = p.
Proof.
  induction p as [| d p IH]; simpl; [reflexivity |].
  rewrite Nat2Z.id, IH; reflexivity.
Qed.

(** A request without [-1] is accepted exactly when it has the right
    number of elements. *)
Lemma infer_size_exact (s : list nat) (n : nat) :
  infer_size (map Z.of_nat s) n
  = if numel s =? n then Ok s else Raise RuntimeError.
Proof.
  unfold infer_size, known_size.
  rewrite existsb_neg_of_nat, count_minus_one_of_nat.
  rewrite filter_minus_one_of_nat, !to_nat_of_nat_list.
  reflexivity.
Qed.

(** The request [p + (-1, 2)] of lines 59-60. *)
Lemma infer_size_pairs (p : list nat) (n : nat) :
  infer_size (map Z.of_nat p ++ [-1; 2]%Z) n
  = if (0 <? numel p * 2) && (n mod (numel p * 2) =? 0)
    then Ok (p ++ [n / (numel p * 2); 2])
    else Raise RuntimeError.
Proof.
  unfold infer_size, known_size.
  rewrite existsb_app, existsb_neg_of_nat; simpl.
  rewrite count_occ_app, count_minus_one_of_nat; simpl.
  rewrite filter_app, filter_minus_one_of_nat; simpl.
  rewrite map_app, to_nat_of_nat_list, numel_app; simpl.
  rewrite map_app, map_map; simpl.
  assert (Hp : forall x, map (fun d => if (Z.of_nat d =? -1)%Z then x
                                       else Z.to_nat (Z.of_nat d)) p = p).
  { intros x; induction p as [| d p IH]; simpl; [reflexivity |].
    rewrite IH.
    destruct (Z.of_nat d =? -1)%Z eqn:E; [apply Z.eqb_eq in E; lia |].
    rewrite Nat2Z.id; reflexivity. }
  rewrite Hp; reflexivity.
Qed.

(** ** The split into (real, imag) pairs *)

Lemma ravel_pair_offset (p ip : list nat) (m i r : nat) :
  length ip = length p ->
  ravel (p ++ [2 * m]) (ip ++ [2 * i + r])
  = ravel (p ++ [m]) (ip ++ [i]) * 2 + r.
Proof.
  revert ip; induction p as [| d p IH]; intros [| i0 ip] Hlen;
    simpl in *; try discriminate; [lia |].
  rewrite IH by lia.
  rewrite !numel_app; simpl; nia.
Qed.

Lemma split_pairs_Ok (t : tensor) (p : list nat) (m : nat) :
  shape t = p ++ [2 * m] -> 0 < numel p ->
  split_pairs t
  = Ok (mkTensor Float32 (p ++ [m]) (pair_slice 0 t (numel (p ++ [m]))),
        mkTensor Float32 (p ++ [m]) (pair_slice 1 t (numel (p ++ [m])))).
Proof.
  intros Hs Hp; unfold split_pairs, reshape; simpl.
  rewrite Hs, removelast_last, infer_size_pairs.
  assert (Hn : numel (p ++ [2 * m]) = m * (numel p * 2))
    by (rewrite numel_app; simpl; lia).
  rewrite Hn, Nat.Div0.mod_mul, Nat.div_mul by lia.
  replace (0 <? numel p * 2) with true by (symmetry; apply Nat.ltb_lt; lia).
  simpl; unfold unbind_last; simpl.
  rewrite rev_app_distr; simpl.
  rewrite removelast_app by discriminate; simpl.
  reflexivity.
Qed.

(** An odd last axis cannot be split: the reshape is refused. *)
Lemma split_pairs_odd (t : tensor) (p : list nat) (m : nat) :
  shape t = p ++ [2 * m + 1] -> split_pairs t = Raise RuntimeError.
Proof.
  intros Hs; unfold split_pairs, reshape; simpl.
  rewrite Hs, removelast_last, infer_size_pairs.
  destruct (0 <? numel p * 2) eqn:Hpos; [| reflexivity].
  apply Nat.ltb_lt in Hpos.
  assert (Hn : numel (p ++ [2 * m + 1])
               = numel p * 1 + m * (numel p * 2))
    by (rewrite numel_app; simpl; lia).
  rewrite Hn, Nat.Div0.mod_add, Nat.mod_small by lia.
  replace (numel p * 1 =? 0) with false
    by (symmetry; apply Nat.eqb_neq; lia).
  reflexivity.
Qed.

Lemma pair_slice_nth (k : nat) (t : tensor) (n j : nat) :
  j < n -> nth j (pair_slice k t n) 0%R = nth (j * 2 + k) (data t) 0%R.
Proof. intros Hj; unfold pair_slice; apply nth_map_seq; exact Hj. Qed.

(** ** The angle table *)

Lemma arange_step2 (head_dim : Z) :
  (0 <= head_dim)%Z ->
  arange 0 head_dim 2
  = Ok (mkTensor Int64 [n_freq head_dim]
          (map (fun i => IZR (0 + Z.of_nat i * 2)) (seq 0 (n_freq head_dim)))).
Proof.
  intros Hh; unfold arange; simpl.
  replace (head_dim <? 0)%Z with false by (symmetry; apply Z.ltb_ge; lia).
  reflexivity.
Qed.

Lemma arange_step2_neg (head_dim : Z) :
  (head_dim < 0)%Z -> arange 0 head_dim 2 = Raise RuntimeError.
Proof.
  intros Hh; unfold arange; simpl.
  replace (head_dim <? 0)%Z with true by (symmetry; apply Z.ltb_lt; lia).
  reflexivity.
Qed.

Lemma arange_positions (s : nat) :
  arange 0 (Z.of_nat s) 1
  = Ok (mkTensor Int64 [s]
          (map (fun i => IZR (0 + Z.of_nat i * 1)) (seq 0 s))).
Proof.
  assert (E : Z.to_nat (- ((0 - Z.of_nat s) / 1)) = s)
    by (rewrite Z.div_1_r; lia).
  unfold arange; cbv zeta; rewrite E; simpl.
  replace (Z.of_nat s <? 0)%Z with false by (symmetry; apply Z.ltb_ge; lia).
  reflexivity.
Qed.

Lemma n_freq_even (m : nat) : n_freq (Z.of_nat (2 * m)) = m.
Proof.
  unfold n_freq.
  replace (0 - Z.of_nat (2 * m))%Z with (- Z.of_nat m * 2)%Z by lia.
  rewrite Z.div_mul by lia; lia.
Qed.

(** [positions * inv_freq], line 77: a column of positions against a row
    of frequencies. *)
Lemma angles_Ok (s : nat) (posdata : list R) (inv : tensor) (M : nat) :
  shape inv = [M] -> length posdata = s ->
  exists ang, tmul (mkTensor Int64 [s; 1] posdata) inv = Ok ang
    /\ shape ang = [s; M]
    /\ t_dtype ang = promote_types Int64 (t_dtype inv)
    /\ wf ang
    /\ forall si i, si < s -> i < M ->
         get ang [si; i] = (nth si posdata 0 * nth i (data inv) 0)%R.
Proof.
  intros Hinv Hlen.
  destruct (@binop_Ok Rmult (mkTensor Int64 [s; 1] posdata) inv [s; M])
    as (ang & Hang & Hsh & Hd & Hwf & Hget).
  { simpl; rewrite Hinv; unfold broadcast_shapes; simpl.
    rewrite broadcast_dim_1_l; reflexivity. }
  exists ang; repeat (split; [assumption |]).
  intros si i Hsi Hi.
  rewrite Hget by (repeat constructor; assumption).
  simpl; rewrite Hinv; unfold pad_shape; simpl.
  rewrite (bsel_lt Hsi), (bsel_lt Hi).
  f_equal; f_equal; lia.
Qed.

(** ** The rotation, lines 91-98 *)

(** A tensor of shape (b, s, h, m) against a table of shape (1, s, 1, m). *)
Lemma binop_table (f : R -> R -> R) (a c : tensor) (b s h m : nat) :
  shape a = [b; s; h; m] -> shape c = [1; s; 1; m] ->
  exists t, binop f a c = Ok t
    /\ shape t = [b; s; h; m]
    /\ t_dtype t = promote_types (t_dtype a) (t_dtype c)
    /\ wf t
    /\ forall bi si hi i, bi < b -> si < s -> hi < h -> i < m ->
         get t [bi; si; hi; i]
         = f (get a [bi; si; hi; i]) (get c [0; si; 0; i]).
Proof.
  intros Ha Hc.
  destruct (@binop_Ok f a c [b; s; h; m])
    as (t & Ht & Hsh & Hd & Hwf & Hget).
  { rewrite Ha, Hc; unfold broadcast_shapes; simpl.
    rewrite !broadcast_dim_refl, !broadcast_dim_1_r; reflexivity. }
  exists t; repeat (split; [assumption |]).
  intros bi si hi i Hbi Hsi Hhi Hi.
  rewrite Hget by (repeat constructor; assumption).
  unfold get; rewrite Ha, Hc; unfold pad_shape; simpl.
  rewrite (bsel_lt Hbi), (bsel_lt Hsi), (bsel_lt Hhi), (bsel_lt Hi).
  reflexivity.
Qed.

(** ** Recombination, lines 104-105 *)

Lemma stack_pair_Ok (re im : tensor) :
  shape im = shape re ->
  stack_last [re; im]
  = Ok (mkTensor (promote_types (t_dtype re) (t_dtype im))
          (shape re ++ [2])
          (map (fun n => nth (n / 2) (data (nth (n mod 2) [re; im] re)) 0%R)
               (seq 0 (numel (shape re) * 2)))).
Proof.
  intros Hs; unfold stack_last; simpl forallb.
  unfold shape_eqb.
  destruct (list_eq_dec Nat.eq_dec (shape im) (shape re)) as [_ | Hne];
    [reflexivity | contradiction].
Qed.

Lemma stack_pair_Raise (re im : tensor) :
  shape im <> shape re -> stack_last [re; im] = Raise RuntimeError.
Proof.
  intros Hs; unfold stack_last; simpl forallb.
  unfold shape_eqb.
  destruct (list_eq_dec Nat.eq_dec (shape im) (shape re)) as [He | _];
    [contradiction | reflexivity].
Qed.

Lemma reshape_exact (t : tensor) (s : list nat) :
  reshape t (map Z.of_nat s)
  = if numel s =? numel (shape t)
    then Ok (mkTensor (t_dtype t) s (data t))
    else Raise RuntimeError.
Proof.
  unfold reshape; rewrite infer_size_exact.
  destruct (numel s =? numel (shape t)); reflexivity.
Qed.

(** The interleaved data of a stacked pair, read at an even and at an
    odd offset. *)
Lemma stack_data_nth (re im : tensor) (len n r : nat) :
  n < len -> r < 2 ->
  nth (n * 2 + r)
    (map (fun j => nth (j / 2) (data (nth (j mod 2) [re; im] re)) 0%R)
         (seq 0 (len * 2))) 0%R
  = nth n (data (nth r [re; im] re)) 0%R.
Proof.
  intros Hn Hr.
  rewrite nth_map_seq by lia.
  replace ((n * 2 + r) / 2) with n
    by (rewrite Nat.div_add_l, (Nat.div_small r 2) by lia; lia).
  replace ((n * 2 + r) mod 2) with r
    by (rewrite Nat.add_comm, Nat.Div0.mod_add, Nat.mod_small by lia; lia).
  reflexivity.
Qed.

(** ** Reading the intermediate tensors at an index *)

Lemma in_range4 (b s h m bi si hi i : nat) :
  bi < b -> si < s -> hi < h -> i < m ->
  in_range [bi; si; hi; i] [b; s; h; m].
Proof. intros; repeat constructor; assumption. Qed.

(** Slice [r] of the pair split holds element [2 i + r] of each vector. *)
Lemma pair_slice_get (t : tensor) (dt : dtype) (b s h m r bi si hi i : nat) :
  shape t = [b; s; h; 2 * m] ->
  bi < b -> si < s -> hi < h -> i < m ->
  get (mkTensor dt [b; s; h; m] (pair_slice r t (numel [b; s; h; m])))
      [bi; si; hi; i]
  = get t [bi; si; hi; 2 * i + r].
Proof.
  intros Hs Hbi Hsi Hhi Hi; unfold get; cbn [shape data].
  rewrite pair_slice_nth by (apply ravel_lt, in_range4; assumption).
  rewrite Hs.
  change [b; s; h; 2 * m] with ([b; s; h] ++ [2 * m]).
  change [bi; si; hi; 2 * i + r] with ([bi; si; hi] ++ [2 * i + r]).
  rewrite ravel_pair_offset by reflexivity.
  reflexivity.
Qed.

(** The sine and cosine tables after [[None, :, None, :]]. *)
Lemma table_get (g : R -> R) (ang : tensor) (dt : dtype) (s m si i : nat) :
  shape ang = [s; m] -> wf ang -> si < s -> i < m ->
  get (mkTensor dt [1; s; 1; m] (map g (data ang))) [0; si; 0; i]
  = g (get ang [si; i]).
Proof.
  intros Hs Hw Hsi Hi; unfold get; cbn [shape data]; rewrite Hs.
  replace (ravel [1; s; 1; m] [0; si; 0; i]) with (ravel [s; m] [si; i])
    by (simpl; lia).
  assert (Hlt : ravel [s; m] [si; i] < length (data ang)).
  { rewrite Hw, Hs; apply ravel_lt; repeat constructor; assumption. }
  rewrite (nth_indep _ 0%R (g 0%R)) by (rewrite length_map; exact Hlt).
  apply map_nth.
Qed.

(** The frequencies of line 71. *)
Lemma inv_freq_nth (theta : R) (head_dim : Z) (ar : tensor) (i : nat) :
  data ar = map (fun i => IZR (0 + Z.of_nat i * 2)) (seq 0 (n_freq head_dim)) ->
  i < n_freq head_dim ->
  nth i (data (scalar_rdiv 1
                 (scalar_pow theta (true_divide_int (float ar) head_dim))))
      0%R
  = code_inv_freq theta head_dim i.
Proof.
  intros Har Hi; cbn [scalar_rdiv scalar_pow true_divide_int float data].
  rewrite Har, !map_map, nth_map_seq by exact Hi.
  reflexivity.
Qed.

(** The recombined tensor holds the rotated real part at even and the
    rotated imaginary part at odd positions of each vector. *)
Lemma stack_get (re im : tensor) (dt : dtype) (b s h m r bi si hi i : nat) :
  shape re = [b; s; h; m] -> shape im = [b; s; h; m] ->
  bi < b -> si < s -> hi < h -> i < m -> r < 2 ->
  get (mkTensor dt [b; s; h; 2 * m]
         (map (fun n => nth (n / 2) (data (nth (n mod 2) [re; im] re)) 0%R)
              (seq 0 (numel [b; s; h; m] * 2))))
      [bi; si; hi; 2 * i + r]
  = get (nth r [re; im] re) [bi; si; hi; i].
Proof.
  intros Hre Him Hbi Hsi Hhi Hi Hr; unfold get at 1; cbn [shape data].
  change [b; s; h; 2 * m] with ([b; s; h] ++ [2 * m]).
  change [bi; si; hi; 2 * i + r] with ([bi; si; hi] ++ [2 * i + r]).
  rewrite ravel_pair_offset by reflexivity.
  rewrite stack_data_nth
    by (try apply ravel_lt, in_range4; assumption).
  unfold get.
  replace (shape (nth r [re; im] re)) with [b; s; h; m]; [reflexivity |].
  destruct r as [| [| r]]; simpl; congruence || lia.
Qed.

(** ** Algebra of the pair rotation *)

Local Open Scope R_scope.

Lemma rotate_zero (p : R * R) : rotate p 0 = p.
Proof.
  destruct p as [x y]; unfold rotate; cbn [fst snd].
  rewrite cos_0, sin_0; f_equal; ring.
Qed.

Lemma rotate_norm (p : R * R) (a : R) :
  fst (rotate p a) * fst (rotate p a) + snd (rotate p a) * snd (rotate p a)
  = fst p * fst p + snd p * snd p.
Proof.
  destruct p as [x y]; unfold rotate; cbn [fst snd].
  pose proof (sin2_cos2 a) as H; unfold Rsqr in H.
  replace ((x * cos a - y * sin a) * (x * cos a - y * sin a)
           + (x * sin a + y * cos a) * (x * sin a + y * cos a))
    with ((x * x + y * y) * (sin a * sin a + cos a * cos a)) by ring.
  rewrite H; ring.
Qed.

(** The dot product of two rotated pairs only sees the difference of the
    two angles. *)
Lemma rotate_dot (p q : R * R) (a c : R) :
  pair_dot (rotate p a) (rotate q c)
  = (fst p * fst q + snd p * snd q) * cos (a - c)
    + (fst p * snd q - snd p * fst q) * sin (a - c).
Proof.
  destruct p as [x y], q as [u v]; unfold pair_dot, rotate; cbn [fst snd].
  rewrite cos_minus, sin_minus; ring.
Qed.

(** The angle the code computes is the angle of the specification. *)
Lemma code_angle_spec (theta : R) (d pos i : nat) :
  code_angle theta (Z.of_nat d) pos i = spec_angle theta d pos i.
Proof.
  unfold code_angle, code_inv_freq, spec_angle, spec_inv_freq.
  rewrite !Z.add_0_l, Z.mul_1_r, mult_IZR, <- !INR_IZR_INZ.
  rewrite Rpower_Ropp.
  replace (INR i * 2 / INR d) with (2 * INR i / INR d)
    by (unfold Rdiv; ring).
  unfold Rdiv at 1; rewrite Rmult_1_l; reflexivity.
Qed.

Lemma code_angle_diff (theta : R) (hd : Z) (i j i' j' f : nat) :
  (i + j' = i' + j)%nat ->
  code_angle theta hd i f - code_angle theta hd j f
  = code_angle theta hd i' f - code_angle theta hd j' f.
Proof.
  intros Hij; unfold code_angle.
  rewrite !Z.add_0_l, !Z.mul_1_r, <- !INR_IZR_INZ.
  assert (H : INR i + INR j' = INR i' + INR j)
    by (rewrite <- !plus_INR, Hij; reflexivity).
  set (w := code_inv_freq theta hd f).
  replace (INR i) with (INR i' + INR j - INR j') by lra.
  ring.
Qed.

Lemma code_angle_zero (theta : R) (hd : Z) (i : nat) :
  code_angle theta hd 0 i = 0.
Proof. unfold code_angle; simpl; ring. Qed.

Lemma theta_10000_pos : 0 < 10000.
Proof. lra. Qed.

Local Close Scope R_scope.

Lemma in_range4_inv (idx : list nat) (b s h d : nat) :
  in_range idx [b; s; h; d] ->
  exists bi si hi j,
    idx = [bi; si; hi; j] /\ bi < b /\ si < s /\ hi < h /\ j < d.
Proof.
  intros H.
  inversion H as [| bi ? idx1 ? Hbi H1]; subst.
  inversion H1 as [| si ? idx2 ? Hsi H2]; subst.
  inversion H2 as [| hi ? idx3 ? Hhi H3]; subst.
  inversion H3 as [| j ? idx4 ? Hj H4]; subst.
  inversion H4; subst.
  exists bi, si, hi, j; repeat split; assumption.
Qed.

Lemma float_eq (t q : tensor) :
  t_dtype t = Float32 -> shape t = shape q -> data t = data q ->
  t = float q.
Proof.
  destruct t as [dt sh da]; unfold float; simpl.
  intros -> -> ->; reflexivity.
Qed.

(** The six operations of lines 91-92 (and 97-98) on one tensor, followed
    by any continuation [K]. *)
Lemma rotation_chain (re im sin4 cos4 : tensor) (b s h m : nat) :
  shape re = [b; s; h; m] -> shape im = [b; s; h; m] ->
  shape sin4 = [1; s; 1; m] -> shape cos4 = [1; s; 1; m] ->
  t_dtype re = Float32 -> t_dtype im = Float32 ->
  t_dtype sin4 = Float32 -> t_dtype cos4 = Float32 ->
  exists rr ri,
    (forall (X : Type) (K : tensor -> tensor -> result X),
     (rc <- tmul re cos4 ;;
     isn <- tmul im sin4 ;;
     rot_real <- tsub rc isn ;;
     rs <- tmul re sin4 ;;
     ic <- tmul im cos4 ;;
     rot_imag <- tadd rs ic ;;
     K rot_real rot_imag) = K rr ri)
    /\ shape rr = [b; s; h; m] /\ shape ri = [b; s; h; m]
    /\ t_dtype rr = Float32 /\ t_dtype ri = Float32
    /\ wf rr /\ wf ri
    /\ forall bi si hi i, bi < b -> si < s -> hi < h -> i < m ->
         (get rr [bi; si; hi; i], get ri [bi; si; hi; i])
         = ((get re [bi; si; hi; i] * get cos4 [0%nat; si; 0%nat; i]
             - get im [bi; si; hi; i] * get sin4 [0%nat; si; 0%nat; i])%R,
            (get re [bi; si; hi; i] * get sin4 [0%nat; si; 0%nat; i]
             + get im [bi; si; hi; i] * get cos4 [0%nat; si; 0%nat; i])%R).
Proof.
  intros Hre Him Hsin Hcos Dre Dim Dsin Dcos.
  destruct (@binop_table Rmult re cos4 b s h m Hre Hcos)
    as (rc & Hrc & Src & Drc & _ & Grc).
  destruct (@binop_table Rmult im sin4 b s h m Him Hsin)
    as (isn & His & Sis & Dis & _ & Gis).
  destruct (@binop_same_shape Rminus rc isn)
    as (rr & Hrr & Srr & Drr & Wrr & Grr); [congruence |].
  destruct (@binop_table Rmult re sin4 b s h m Hre Hsin)
    as (rs & Hrs & Srs & Drs & _ & Grs).
  destruct (@binop_table Rmult im cos4 b s h m Him Hcos)
    as (ic & Hic & Sic & Dic & _ & Gic).
  destruct (@binop_same_shape Rplus rs ic)
    as (ri & Hri & Sri & Dri & Wri & Gri); [congruence |].
  exists rr, ri.
  split.
  { intros X K; unfold tmul, tsub, tadd.
    rewrite Hrc, His; cbn [bind]; rewrite Hrr, Hrs, Hic; cbn [bind].
    rewrite Hri; reflexivity. }
  split; [congruence |]. split; [congruence |].
  split; [rewrite Drr, Drc, Dis, Dre, Dim, Dsin, Dcos; reflexivity |].
  split; [rewrite Dri, Drs, Dic, Dre, Dim, Dsin, Dcos; reflexivity |].
  split; [exact Wrr |]. split; [exact Wri |].
  intros bi si hi i Hbi Hsi Hhi Hi.
  assert (Hin : in_range [bi; si; hi; i] [b; s; h; m])
    by (repeat constructor; assumption).
  rewrite Grr, Gri by (rewrite ?Src, ?Srs; exact Hin).
  rewrite Grc, Gis, Grs, Gic by assumption.
  reflexivity.
Qed.

Section ValidInput.

Variables query key : tensor.
Variables b s h b' h' m : nat.
Variables (head_dim max_seq_len : Z) (theta : R).

Hypothesis Hq : shape query = [b; s; h; 2 * m].
Hypothesis Hk : shape key = [b'; s; h'; 2 * m].
Hypothesis Hb : 0 < b.
Hypothesis Hs : 0 < s.
Hypothesis Hh : 0 < h.
Hypothesis Hb' : 0 < b'.
Hypothesis Hh' : 0 < h'.
Hypothesis Hhd : head_dim = Z.of_nat (2 * m).

Lemma apply_rotary_emb_valid :
  exists qo ko,
    apply_rotary_emb query key head_dim max_seq_len theta = Ok (qo, ko)
    /\ shape qo = shape query /\ shape ko = shape key
    /\ t_dtype qo = Float32 /\ t_dtype ko = Float32
    /\ wf qo /\ wf ko
    /\ (forall bi si hi i, bi < b -> si < s -> hi < h -> i < m ->
          pair_at qo bi si hi i
          = rotate (pair_at query bi si hi i)
              (code_angle theta head_dim si i))
    /\ (forall bi si hi i, bi < b' -> si < s -> hi < h' -> i < m ->
          pair_at ko bi si hi i
          = rotate (pair_at key bi si hi i)
              (code_angle theta head_dim si i)).
Proof.
  assert (HM : n_freq head_dim = m) by (rewrite Hhd; apply n_freq_even).
  unfold apply_rotary_emb.
  rewrite Hq, Hk; cbn [unpack4 bind].
  rewrite (@split_pairs_Ok query [b; s; h] m Hq) by (simpl; nia).
  rewrite (@split_pairs_Ok key [b'; s; h'] m Hk) by (simpl; nia).
  cbn [bind app].
  rewrite arange_step2 by lia.
  rewrite arange_positions.
  cbn [bind].
  set (qre := mkTensor Float32 [b; s; h; m] (pair_slice 0 query _)).
  set (qim := mkTensor Float32 [b; s; h; m] (pair_slice 1 query _)).
  set (kre := mkTensor Float32 [b'; s; h'; m] (pair_slice 0 key _)).
  set (kim := mkTensor Float32 [b'; s; h'; m] (pair_slice 1 key _)).
  set (inv := scalar_rdiv 1 _).
  cbn [unsqueeze ndim shape length Nat.leb firstn skipn app t_dtype data bind].
  destruct (@angles_Ok s (map (fun i => IZR (0 + Z.of_nat i * 1)) (seq 0 s))
              inv m) as (ang & Hang & Sang & Dang & Wang & Gang).
  { subst inv; simpl; rewrite HM; reflexivity. }
  { rewrite length_map, length_seq; reflexivity. }
  rewrite Hang; cbn [bind].
  unfold index_none_slice_none_slice.
  cbn [tsin tcos shape t_dtype data]; rewrite Sang; cbn [bind].
  set (sin4 := mkTensor _ [1; s; 1; m] (map sin _)).
  set (cos4 := mkTensor _ [1; s; 1; m] (map cos _)).
  assert (Dsin : t_dtype sin4 = Float32)
    by (subst sin4; cbn [t_dtype]; rewrite Dang; reflexivity).
  assert (Dcos : t_dtype cos4 = Float32)
    by (subst cos4; cbn [t_dtype]; rewrite Dang; reflexivity).
  destruct (@rotation_chain qre qim sin4 cos4 b s h m)
    as (qrr & qri & Hqchain & Sqrr & Sqri & Dqrr & Dqri & Wqrr & Wqri & Gq);
    try reflexivity; try assumption.
  rewrite Hqchain; clear Hqchain.
  destruct (@rotation_chain kre kim sin4 cos4 b' s h' m)
    as (krr & kri & Hkchain & Skrr & Skri & Dkrr & Dkri & Wkrr & Wkri & Gk);
    try reflexivity; try assumption.
  rewrite Hkchain; clear Hkchain.
  rewrite stack_pair_Ok by congruence; cbn [bind].
  rewrite reshape_exact; cbn [shape t_dtype data]; rewrite Sqrr.
  replace (numel [b; s; h; 2 * m] =? numel ([b; s; h; m] ++ [2])) with true
    by (symmetry; apply Nat.eqb_eq; simpl; lia).
  cbn [bind].
  rewrite stack_pair_Ok by congruence; cbn [bind].
  rewrite reshape_exact; cbn [shape t_dtype data]; rewrite Skrr.
  replace (numel [b'; s; h'; 2 * m] =? numel ([b'; s; h'; m] ++ [2]))
    with true by (symmetry; apply Nat.eqb_eq; simpl; lia).
  cbn [bind].
  assert (Gtab : forall g dt si i, si < s -> i < m ->
            get (mkTensor dt [1; s; 1; m] (map g (data ang)))
                [0; si; 0; i]
            = g (code_angle theta head_dim si i)).
  { intros g dt si i Hsi Hi.
    rewrite (table_get g dt Sang Wang Hsi Hi), Gang by assumption.
    rewrite nth_map_seq by exact Hsi.
    subst inv; rewrite inv_freq_nth; [reflexivity | reflexivity | lia]. }
  eexists; eexists; split; [reflexivity |].
  cbn [shape t_dtype].
  split; [reflexivity |]. split; [reflexivity |].
  split; [rewrite Dqrr, Dqri; reflexivity |].
  split; [rewrite Dkrr, Dkri; reflexivity |].
  split; [unfold wf; cbn [shape data];
          rewrite length_map, length_seq; simpl; lia |].
  split; [unfold wf; cbn [shape data];
          rewrite length_map, length_seq; simpl; lia |].
  split.
  - intros bi si hi i Hbi Hsi Hhi Hi.
    specialize (Gq bi si hi i Hbi Hsi Hhi Hi).
    injection Gq as Gre Gim.
    unfold rotate, pair_at; cbn [fst snd].
    match goal with |- (get ?Q _, _) = _ => set (out := Q) end.
    replace (get out [bi; si; hi; 2 * i])
      with (get out [bi; si; hi; 2 * i + 0])
      by (rewrite Nat.add_0_r; reflexivity).
    subst out.
    rewrite !(@stack_get qrr qri _ b s h m) by (assumption || lia).
    cbn [nth]; rewrite Gre, Gim.
    subst qre qim sin4 cos4.
    rewrite !pair_slice_get, !Gtab by assumption.
    rewrite Nat.add_0_r; reflexivity.
  - intros bi si hi i Hbi Hsi Hhi Hi.
    specialize (Gk bi si hi i Hbi Hsi Hhi Hi).
    injection Gk as Gre Gim.
    unfold rotate, pair_at; cbn [fst snd].
    match goal with |- (get ?Q _, _) = _ => set (out := Q) end.
    replace (get out [bi; si; hi; 2 * i])
      with (get out [bi; si; hi; 2 * i + 0])
      by (rewrite Nat.add_0_r; reflexivity).
    subst out.
    rewrite !(@stack_get krr kri _ b' s h' m) by (assumption || lia).
    cbn [nth]; rewrite Gre, Gim.
    subst kre kim sin4 cos4.
    rewrite !pair_slice_get, !Gtab by assumption.
    rewrite Nat.add_0_r; reflexivity.
Qed.

(** C2: for a valid query and key, the call returns, and the query
    output has exactly the shape of the input query and the key output
    exactly the shape of the input key. *)
Theorem apply_rotary_emb_preserves_shape :
  exists qo ko,
    apply_rotary_emb query key head_dim max_seq_len theta = Ok (qo, ko)
    /\ shape qo = shape query /\ shape ko = shape key.
Proof.
  destruct apply_rotary_emb_valid
    as (qo & ko & Hrun & Sq & Sk & _).
  exists qo, ko; repeat split; assumption.
Qed.

Hypothesis Htheta : (0 < theta)%R.

(** C3: for a positive theta, every rotated pair of both outputs has the
    squared norm of the input pair it comes from, at every batch entry,
    position, head and pair index (exactly, in real arithmetic). *)
Theorem apply_rotary_emb_preserves_pair_norm :
  exists qo ko,
    apply_rotary_emb query key head_dim max_seq_len theta = Ok (qo, ko)
    /\ (forall bi si hi i, bi < b -> si < s -> hi < h -> i < m ->
          (fst (pair_at qo bi si hi i) * fst (pair_at qo bi si hi i)
           + snd (pair_at qo bi si hi i) * snd (pair_at qo bi si hi i)
           = fst (pair_at query bi si hi i) * fst (pair_at query bi si hi i)
             + snd (pair_at query bi si hi i)
               * snd (pair_at query bi si hi i))%R)
    /\ (forall bi si hi i, bi < b' -> si < s -> hi < h' -> i < m ->
          (fst (pair_at ko bi si hi i) * fst (pair_at ko bi si hi i)
           + snd (pair_at ko bi si hi i) * snd (pair_at ko bi si hi i)
           = fst (pair_at key bi si hi i) * fst (pair_at key bi si hi i)
             + snd (pair_at key bi si hi i)
               * snd (pair_at key bi si hi i))%R).
Proof.
  pose proof Htheta as Hpos.
  destruct apply_rotary_emb_valid
    as (qo & ko & Hrun & _ & _ & _ & _ & _ & _ & Gq & Gk).
  exists qo, ko; split; [exact Hrun |].
  split; intros bi si hi i Hbi Hsi Hhi Hi.
  - rewrite Gq by assumption; apply rotate_norm.
  - rewrite Gk by assumption; apply rotate_norm.
Qed.

(** C4: for a positive theta, when the query holds one vector at
    positions [i] and [i'] and the key holds one vector at positions [j]
    and [j'], with [i - j = i' - j'], then for every pair index the dot
    product of the
    rotated query pair at [i] with the rotated key pair at [j] equals
    that at [i'] and [j']: it depends on the difference of the
    positions only. *)
Theorem apply_rotary_emb_relative_position
    (bq hq bk hk i j i' j' : nat) :
  bq < b -> hq < h -> bk < b' -> hk < h' ->
  i < s -> j < s -> i' < s -> j' < s ->
  i + j' = i' + j ->
  (forall f, f < m ->
     pair_at query bq i hq f = pair_at query bq i' hq f) ->
  (forall f, f < m ->
     pair_at key bk j hk f = pair_at key bk j' hk f) ->
  exists qo ko,
    apply_rotary_emb query key head_dim max_seq_len theta = Ok (qo, ko)
    /\ forall f, f < m ->
         pair_dot (pair_at qo bq i hq f) (pair_at ko bk j hk f)
         = pair_dot (pair_at qo bq i' hq f) (pair_at ko bk j' hk f).
Proof.
  intros Hbq Hhq Hbk Hhk Hi Hj Hi' Hj' Hdiff Hqv Hkv.
  pose proof Htheta as Hpos.
  destruct apply_rotary_emb_valid
    as (qo & ko & Hrun & _ & _ & _ & _ & _ & _ & Gq & Gk).
  exists qo, ko; split; [exact Hrun |].
  intros f Hf.
  rewrite !Gq, !Gk by assumption.
  rewrite !rotate_dot.
  rewrite (Hqv f Hf), (Hkv f Hf).
  rewrite (@code_angle_diff theta head_dim i j i' j' f Hdiff).
  reflexivity.
Qed.

(** C1: for a query and a key of shape (batch, seqlen, heads, head_dim)
    with head_dim even and a positive theta, the call returns outputs of
    the input shapes in which the pair (2i, 2i+1) of every vector at
    position pos is the input pair at the same place rotated by the
    angle pos * theta^(-2i/head_dim):
    real' = real cos - imag sin, imag' = real sin + imag cos. *)
Theorem apply_rotary_emb_rotates_pairs :
  exists qo ko,
    apply_rotary_emb query key head_dim max_seq_len theta = Ok (qo, ko)
    /\ shape qo = shape query /\ shape ko = shape key
    /\ (forall bi pos hi i, bi < b -> pos < s -> hi < h -> i < m ->
          pair_at qo bi pos hi i
          = rotate (pair_at query bi pos hi i)
              (spec_angle theta (2 * m) pos i))
    /\ (forall bi pos hi i, bi < b' -> pos < s -> hi < h' -> i < m ->
          pair_at ko bi pos hi i
          = rotate (pair_at key bi pos hi i)
              (spec_angle theta (2 * m) pos i)).
Proof.
  pose proof Htheta as Hpos.
  destruct apply_rotary_emb_valid
    as (qo & ko & Hrun & Sq & Sk & _ & _ & _ & _ & Gq & Gk).
  exists qo, ko; repeat (split; [assumption |]).
  split; intros bi pos hi i Hbi Hp Hhi Hi.
  - rewrite Gq, Hhd, code_angle_spec by assumption; reflexivity.
  - rewrite Gk, Hhd, code_angle_spec by assumption; reflexivity.
Qed.

End ValidInput.


(** An output whose only position is 0 and whose vectors hold one pair is
    the input itself when every pair is rotated by angle 0. *)
Lemma identity_output (qo q : tensor) (b h : nat) :
  shape q = [b; 1; h; 2] -> wf q ->
  shape qo = shape q -> t_dtype qo = Float32 -> wf qo ->
  (forall bi hi, bi < b -> hi < h ->
     pair_at qo bi 0 hi 0 = rotate (pair_at q bi 0 hi 0) 0%R) ->
  qo = float q.
Proof.
  intros Hq Hwq Sq Dq Wq Gq.
  apply float_eq; [exact Dq | exact Sq |].
  apply data_ext; [exact Sq | exact Wq | exact Hwq |].
  intros idx Hidx; rewrite Sq, Hq in Hidx.
  destruct (in_range4_inv Hidx) as (bi & si & hi & j & -> & Hbi & Hsi & Hhi & Hj).
  specialize (Gq bi hi Hbi Hhi).
  rewrite rotate_zero in Gq; unfold pair_at in Gq; simpl in Gq.
  injection Gq as G0 G1.
  assert (si = 0) by lia; subst si.
  destruct j as [| [| j]]; [exact G0 | exact G1 | lia].
Qed.

(** C6: with theta = 10000.0, head_dim = 2 and sequence length 1, the
    angle at position 0 is 0 for every frequency and the call returns its
    inputs (as float32 tensors, values unchanged). *)
Theorem apply_rotary_emb_identity_at_position_zero
    (query key : tensor) (b h b' h' : nat) (max_seq_len : Z) :
  shape query = [b; 1; h; 2] -> shape key = [b'; 1; h'; 2] ->
  wf query -> wf key ->
  0 < b -> 0 < h -> 0 < b' -> 0 < h' ->
  (forall i, code_angle 10000 2 0 i = 0%R)
  /\ apply_rotary_emb query key 2 max_seq_len 10000
     = Ok (float query, float key).
Proof.
  intros Hq Hk Hwq Hwk Hb Hh Hb' Hh'.
  split; [intros i; apply code_angle_zero |].
  destruct (@apply_rotary_emb_valid query key b 1 h b' h' 1 2%Z
              max_seq_len 10000%R Hq Hk Hb Nat.lt_0_1 Hh Hb' Hh' eq_refl)
    as (qo & ko & Hrun & Sq & Sk & Dq & Dk & Wq & Wk & Gq & Gk).
  rewrite Hrun; f_equal; f_equal.
  - apply (identity_output Hq Hwq Sq Dq Wq).
    intros bi hi Hbi Hhi.
    rewrite Gq, code_angle_zero by lia; reflexivity.
  - apply (identity_output Hk Hwk Sk Dk Wk).
    intros bi hi Hbi Hhi.
    rewrite Gk, code_angle_zero by lia; reflexivity.
Qed.

(** C7: rotating a (real, imag) pair by an angle and then by the opposite
    angle gives the pair back (exactly, in real arithmetic). *)
Theorem rotate_inverse_angle (p : R * R) (angle : R) :
  rotate (rotate p angle) (- angle) = p.
Proof.
  destruct p as [x y]; unfold rotate; cbn [fst snd].
  rewrite cos_neg, sin_neg.
  pose proof (sin2_cos2 angle) as H; unfold Rsqr in H.
  f_equal.
  - replace x with (x * (sin angle * sin angle + cos angle * cos angle))%R
      at 3 by (rewrite H; ring).
    ring.
  - replace y with (y * (sin angle * sin angle + cos angle * cos angle))%R
      at 3 by (rewrite H; ring).
    ring.
Qed.

(** C9: two calls that differ only in [max_seq_len] give the same
    result. *)
Theorem apply_rotary_emb_ignores_max_seq_len
    (query key : tensor) (head_dim max_seq_len1 max_seq_len2 : Z)
    (theta : R) :
  apply_rotary_emb query key head_dim max_seq_len1 theta
  = apply_rotary_emb query key head_dim max_seq_len2 theta.
Proof. reflexivity. Qed.

(** ** Element type of the outputs *)

Lemma reshape_Ok_inv (t r : tensor) (spec : list Z) :
  reshape t spec = Ok r ->
  t_dtype r = t_dtype t /\ data r = data t
  /\ infer_size spec (numel (shape t)) = Ok (shape r).
Proof.
  unfold reshape; destruct (infer_size spec (numel (shape t))) as [s | e];
    simpl; intros H; [| discriminate].
  injection H as <-; repeat split.
Qed.

Lemma unbind_last_dtype (t : tensor) (parts : list tensor) :
  unbind_last t = Ok parts ->
  forall x, In x parts -> t_dtype x = t_dtype t.
Proof.
  unfold unbind_last; destruct (rev (shape t)) as [| n l]; [discriminate |].
  intros H; injection H as <-.
  intros x Hx; apply in_map_iff in Hx; destruct Hx as (k & <- & _).
  reflexivity.
Qed.

Lemma unpack2_Ok_inv (A : Type) (l : list A) (a c : A) :
  unpack2 l = Ok (a, c) -> l = [a; c].
Proof.
  destruct l as [| x [| y [| z l]]]; simpl; intros H; try discriminate.
  injection H as -> ->; reflexivity.
Qed.

Lemma split_pairs_dtype (t re im : tensor) :
  split_pairs t = Ok (re, im) ->
  t_dtype re = Float32 /\ t_dtype im = Float32.
Proof.
  unfold split_pairs; intros H.
  apply bind_Ok_inv in H; destruct H as (r & Hr & H).
  apply bind_Ok_inv in H; destruct H as (parts & Hparts & H).
  apply unpack2_Ok_inv in H; subst parts.
  apply reshape_Ok_inv in Hr; destruct Hr as (Dr & _).
  pose proof (@unbind_last_dtype _ _ Hparts) as Hd.
  split; rewrite Hd, Dr by (simpl; auto); reflexivity.
Qed.

Lemma binop_Ok_inv (f : R -> R -> R) (a c t : tensor) :
  binop f a c = Ok t ->
  t_dtype t = promote_types (t_dtype a) (t_dtype c)
  /\ broadcast_shapes (shape a) (shape c) = Some (shape t).
Proof.
  unfold binop; destruct (broadcast_shapes (shape a) (shape c)) as [ts |];
    intros H; [| discriminate].
  injection H as <-; split; reflexivity.
Qed.

Lemma stack_pair_Ok_inv (re im t : tensor) :
  stack_last [re; im] = Ok t ->
  t_dtype t = promote_types (t_dtype re) (t_dtype im)
  /\ shape im = shape re /\ shape t = shape re ++ [2].
Proof.
  intros H.
  destruct (list_eq_dec Nat.eq_dec (shape im) (shape re)) as [E | E].
  - rewrite (stack_pair_Ok _ _ E) in H; injection H as <-.
    repeat split; exact E.
  - rewrite (stack_pair_Raise _ _ E) in H; discriminate.
Qed.

Lemma arange_Ok_inv (start stop step : Z) (t : tensor) :
  arange start stop step = Ok t ->
  t_dtype t = Int64
  /\ shape t = [Z.to_nat (- ((start - stop) / step))].
Proof.
  unfold arange.
  destruct (step =? 0)%Z; [discriminate |].
  destruct (_ || _); [discriminate |].
  intros H; injection H as <-; split; reflexivity.
Qed.

Lemma unsqueeze_Ok_inv (t r : tensor) (dim : nat) :
  unsqueeze t dim = Ok r ->
  t_dtype r = t_dtype t
  /\ shape r = firstn dim (shape t) ++ 1 :: skipn dim (shape t).
Proof.
  unfold unsqueeze; destruct (dim <=? ndim t); [| discriminate].
  intros H; injection H as <-; split; reflexivity.
Qed.

Lemma index_none_slice_none_slice_Ok_inv (t r : tensor) :
  index_none_slice_none_slice t = Ok r ->
  t_dtype r = t_dtype t
  /\ exists a c rest, shape t = a :: c :: rest
                      /\ shape r = 1 :: a :: 1 :: c :: rest.
Proof.
  unfold index_none_slice_none_slice.
  destruct (shape t) as [| a [| c rest]]; try discriminate.
  intros H; injection H as <-; split; [reflexivity |].
  exists a, c, rest; split; reflexivity.
Qed.

Ltac invert_bind H x Hx :=
  apply bind_Ok_inv in H; destruct H as (x & Hx & H); cbv beta in H.

(** C10: whatever the element types of the query and of the key, both
    tensors a call returns are float32: the inputs are promoted by
    [float()] and nothing casts the result back. *)
Theorem apply_rotary_emb_output_dtype
    (query key : tensor) (head_dim max_seq_len : Z) (theta : R)
    (query_out key_out : tensor) :
  apply_rotary_emb query key head_dim max_seq_len theta
  = Ok (query_out, key_out) ->
  t_dtype query_out = Float32 /\ t_dtype key_out = Float32.
Proof.
  unfold apply_rotary_emb; intros H.
  invert_bind H shp Hshp; destruct shp as [[[d0 seqlen] d2] d3].
  invert_bind H qp Hqp; destruct qp as [query_real query_imag].
  invert_bind H kp Hkp; destruct kp as [key_real key_imag].
  invert_bind H ar Har.
  invert_bind H pos0 Hpos.
  invert_bind H positions Hpositions.
  invert_bind H angles Hangles.
  invert_bind H sin_angles Hsin.
  invert_bind H cos_angles Hcos.
  invert_bind H qrc Hqrc. invert_bind H qis Hqis. invert_bind H qrr Hqrr.
  invert_bind H qrs Hqrs. invert_bind H qic Hqic. invert_bind H qri Hqri.
  invert_bind H krc Hkrc. invert_bind H kis Hkis. invert_bind H krr Hkrr.
  invert_bind H krs Hkrs. invert_bind H kic Hkic. invert_bind H kri Hkri.
  invert_bind H qst Hqst. invert_bind H qo Hqo.
  invert_bind H kst Hkst. invert_bind H ko Hko.
  injection H as <- <-.
  destruct (@split_pairs_dtype _ _ _ Hqp) as [Dqre Dqim].
  destruct (@split_pairs_dtype _ _ _ Hkp) as [Dkre Dkim].
  destruct (@arange_Ok_inv _ _ _ _ Har) as [Dar _].
  destruct (@arange_Ok_inv _ _ _ _ Hpos) as [Dpos _].
  destruct (@unsqueeze_Ok_inv _ _ _ Hpositions) as [Dpositions _].
  destruct (@binop_Ok_inv _ _ _ _ Hangles) as [Dang _].
  destruct (@index_none_slice_none_slice_Ok_inv _ _ Hsin) as [Dsin _].
  destruct (@index_none_slice_none_slice_Ok_inv _ _ Hcos) as [Dcos _].
  assert (Ds : t_dtype sin_angles = Float32).
  { rewrite Dsin; cbn [tsin t_dtype]; rewrite Dang, Dpositions, Dpos.
    reflexivity. }
  assert (Dc : t_dtype cos_angles = Float32).
  { rewrite Dcos; cbn [tcos t_dtype]; rewrite Dang, Dpositions, Dpos.
    reflexivity. }
  destruct (@binop_Ok_inv _ _ _ _ Hqrc) as [D1 _].
  destruct (@binop_Ok_inv _ _ _ _ Hqis) as [D2 _].
  destruct (@binop_Ok_inv _ _ _ _ Hqrr) as [D3 _].
  destruct (@binop_Ok_inv _ _ _ _ Hqrs) as [D4 _].
  destruct (@binop_Ok_inv _ _ _ _ Hqic) as [D5 _].
  destruct (@binop_Ok_inv _ _ _ _ Hqri) as [D6 _].
  destruct (@binop_Ok_inv _ _ _ _ Hkrc) as [E1 _].
  destruct (@binop_Ok_inv _ _ _ _ Hkis) as [E2 _].
  destruct (@binop_Ok_inv _ _ _ _ Hkrr) as [E3 _].
  destruct (@binop_Ok_inv _ _ _ _ Hkrs) as [E4 _].
  destruct (@binop_Ok_inv _ _ _ _ Hkic) as [E5 _].
  destruct (@binop_Ok_inv _ _ _ _ Hkri) as [E6 _].
  destruct (@stack_pair_Ok_inv _ _ _ Hqst) as [Dqst _].
  destruct (@stack_pair_Ok_inv _ _ _ Hkst) as [Dkst _].
  destruct (@reshape_Ok_inv _ _ _ Hqo) as [Dqo _].
  destruct (@reshape_Ok_inv _ _ _ Hko) as [Dko _].
  split.
  - rewrite Dqo, Dqst, D3, D6, D1, D2, D4, D5, Dqre, Dqim, Ds, Dc.
    reflexivity.
  - rewrite Dko, Dkst, E3, E6, E1, E2, E4, E5, Dkre, Dkim, Ds, Dc.
    reflexivity.
Qed.

(** ** reshape_for_broadcast *)

Lemma infer_size_Raise (spec : list Z) (n : nat) (e : exn) :
  infer_size spec n = Raise e -> e = RuntimeError.
Proof.
  unfold infer_size.
  destruct (existsb _ spec); [intros H; injection H as <-; reflexivity |].
  destruct (count_occ Z.eq_dec spec (-1)%Z) as [| [| c]].
  - destruct (_ =? _); intros H; [discriminate | injection H as <-; reflexivity].
  - destruct (_ && _); intros H; [discriminate | injection H as <-; reflexivity].
  - intros H; injection H as <-; reflexivity.
Qed.

Lemma reshape_Raise (t : tensor) (spec : list Z) (e : exn) :
  reshape t spec = Raise e -> e = RuntimeError.
Proof.
  unfold reshape.
  destruct (infer_size spec (numel (shape t))) as [s | e'] eqn:E; simpl;
    intros H; [discriminate |].
  injection H as <-; exact (infer_size_Raise _ _ E).
Qed.

Lemma shape_eqb_eq (a c : list nat) : shape_eqb a c = true <-> a = c.
Proof.
  unfold shape_eqb; destruct (list_eq_dec Nat.eq_dec a c); split;
    intros H; try reflexivity; try assumption; try discriminate.
  contradiction.
Qed.

Lemma masked_shape_length (nd k : nat) (sx : list nat) :
  length (masked_shape nd k sx) = length sx.
Proof.
  unfold masked_shape.
  rewrite length_map, length_combine, length_seq; apply Nat.min_id.
Qed.

Lemma masked_shape_nth (nd : nat) (sx : list nat) :
  forall k i, i < length sx ->
    nth i (masked_shape nd k sx) 0
    = if (k + i =? 1) || (k + i =? nd - 1) then nth i sx 0 else 1.
Proof.
  induction sx as [| d sx IH]; intros k i Hi; simpl in Hi; [lia |].
  destruct i as [| i].
  - unfold masked_shape; simpl; rewrite Nat.add_0_r; reflexivity.
  - change (nth (S i) (masked_shape nd k (d :: sx)) 0)
      with (nth i (masked_shape nd (S k) sx) 0).
    rewrite IH by lia.
    replace (S k + i) with (k + S i) by lia; reflexivity.
Qed.

(** Past axis 1 only the last axis survives. *)
Lemma masked_shape_numel (nd : nat) (sx : list nat) :
  forall k, 2 <= k -> sx <> [] -> nd = k + length sx ->
    numel (masked_shape nd k sx) = last sx 0.
Proof.
  induction sx as [| d sx IH]; intros k Hk Hne Hnd; [contradiction |].
  change (masked_shape nd k (d :: sx))
    with ((if (k =? 1) || (k =? nd - 1) then d else 1)
          :: masked_shape nd (S k) sx).
  destruct sx as [| e sx].
  - simpl in Hnd.
    replace (k =? nd - 1) with true by (symmetry; apply Nat.eqb_eq; lia).
    rewrite orb_true_r; simpl; lia.
  - cbn [numel].
    rewrite IH by (simpl in *; try discriminate; lia).
    replace (k =? 1) with false by (symmetry; apply Nat.eqb_neq; lia).
    replace (k =? nd - 1) with false
      by (symmetry; apply Nat.eqb_neq; simpl in Hnd; lia).
    simpl; lia.
Qed.

Lemma masked_shape_numel_rank3 (sx : list nat) :
  3 <= length sx ->
  numel (masked_shape (length sx) 0 sx) = nth 1 sx 0 * (last sx 0 * 1).
Proof.
  destruct sx as [| d0 [| d1 [| d2 rest]]]; simpl length; try lia.
  intros _.
  change (masked_shape (S (S (S (length rest)))) 0 (d0 :: d1 :: d2 :: rest))
    with (1 :: d1 :: masked_shape (S (S (S (length rest)))) 2 (d2 :: rest)).
  cbn [numel nth].
  rewrite masked_shape_numel by (simpl; try discriminate; lia).
  change (last (d0 :: d1 :: d2 :: rest) 0) with (last (d2 :: rest) 0).
  lia.
Qed.

(** What the helper does once both assertions hold. *)
Lemma reshape_for_broadcast_passed (freqs_cis x : tensor) :
  2 <= ndim x ->
  shape freqs_cis = [nth 1 (shape x) 0; last (shape x) 0] ->
  reshape_for_broadcast freqs_cis x
  = reshape freqs_cis (map Z.of_nat (masked_shape (ndim x) 0 (shape x))).
Proof.
  intros Hnd Hs; unfold reshape_for_broadcast.
  replace (1 <? ndim x) with true by (symmetry; apply Nat.ltb_lt; lia).
  replace (shape_eqb _ _) with true
    by (symmetry; apply shape_eqb_eq; exact Hs).
  reflexivity.
Qed.

(** C5, as the code has it: an AssertionError is raised exactly when the
    target has fewer than 2 axes or the frequency tensor's shape is not
    (x.shape[1], x.shape[-1]); otherwise the helper returns the frequency
    data under the target's shape with every axis but axis 1 and the
    last replaced by 1, except for a target of exactly 2 axes whose
    axis 1 is larger than 1, where the view is refused with a
    RuntimeError. *)
Theorem reshape_for_broadcast_spec (freqs_cis x : tensor) :
  (reshape_for_broadcast freqs_cis x = Raise AssertionError
   <-> (ndim x < 2
        \/ shape freqs_cis <> [nth 1 (shape x) 0; last (shape x) 0]))
  /\ (2 <= ndim x ->
      shape freqs_cis = [nth 1 (shape x) 0; last (shape x) 0] ->
      (ndim x = 2 -> nth 1 (shape x) 0 <= 1) ->
      exists r,
        reshape_for_broadcast freqs_cis x = Ok r
        /\ data r = data freqs_cis
        /\ t_dtype r = t_dtype freqs_cis
        /\ length (shape r) = ndim x
        /\ forall i, i < ndim x ->
             nth i (shape r) 0
             = if (i =? 1) || (i =? ndim x - 1)
               then nth i (shape x) 0 else 1)
  /\ (ndim x = 2 -> 2 <= nth 1 (shape x) 0 ->
      shape freqs_cis = [nth 1 (shape x) 0; last (shape x) 0] ->
      reshape_for_broadcast freqs_cis x = Raise RuntimeError).
Proof.
  split; [| split].
  - split.
    + intros H.
      destruct (Nat.lt_ge_cases (ndim x) 2) as [Hlt | Hge]; [left; exact Hlt |].
      right; intros Hs.
      rewrite (reshape_for_broadcast_passed _ _ Hge Hs) in H.
      apply reshape_Raise in H; discriminate.
    + unfold reshape_for_broadcast; intros [Hlt | Hne].
      * replace (1 <? ndim x) with false
          by (symmetry; apply Nat.ltb_ge; lia).
        reflexivity.
      * destruct (1 <? ndim x); [| reflexivity].
        destruct (shape_eqb _ _) eqn:E; [| reflexivity].
        apply shape_eqb_eq in E; contradiction.
  - intros Hnd Hs Hrank2.
    rewrite reshape_for_broadcast_passed by (lia || assumption).
    rewrite reshape_exact.
    unfold ndim in *.
    replace (numel (masked_shape (length (shape x)) 0 (shape x))
             =? numel (shape freqs_cis)) with true.
    2:{ symmetry; apply Nat.eqb_eq.
        destruct (Nat.eq_dec (length (shape x)) 2) as [E2 | N2].
        - specialize (Hrank2 E2); rewrite Hs.
          destruct (shape x) as [| d0 [| d1 [| d2 rest]]];
            simpl in E2; try lia.
          simpl in Hrank2 |- *; nia.
        - rewrite masked_shape_numel_rank3, Hs by lia; reflexivity. }
    eexists; split; [reflexivity |]; cbn [data t_dtype shape].
    split; [reflexivity |]. split; [reflexivity |].
    split; [apply masked_shape_length |].
    intros i Hi; rewrite masked_shape_nth by exact Hi; reflexivity.
  - intros Hnd Hd1 Hs.
    rewrite reshape_for_broadcast_passed by (lia || assumption).
    rewrite reshape_exact, Hs.
    unfold ndim in *.
    destruct (shape x) as [| d0 [| d1 [| d2 rest]]]; simpl in Hnd; try lia.
    simpl in Hd1 |- *.
    match goal with
    | |- (if ?c then _ else _) = _ => destruct c eqn:E; [| reflexivity]
    end.
    apply Nat.eqb_eq in E; nia.
Qed.

(** The claim as the specification states it fails on a rank-2 target:
    both assertions hold for a (2, 2) frequency tensor and a (1, 2)
    target, and the call neither raises an AssertionError nor returns. *)
Lemma reshape_for_broadcast_rank2_refused :
  ~ (ndim sample_rank2 < 2)
  /\ shape sample_freqs
     = [nth 1 (shape sample_rank2) 0; last (shape sample_rank2) 0]
  /\ reshape_for_broadcast sample_freqs sample_rank2 = Raise RuntimeError.
Proof.
  split; [unfold ndim, sample_rank2; simpl; lia |].
  split; reflexivity.
Qed.

(** ** Failures of the kernel *)

Lemma split_pairs_Raise (t : tensor) (e : exn) :
  split_pairs t = Raise e -> e = RuntimeError.
Proof.
  unfold split_pairs, reshape; cbn [shape float].
  rewrite infer_size_pairs.
  destruct (_ && _); cbn [bind].
  - unfold unbind_last; cbn [shape].
    rewrite rev_app_distr; simpl; discriminate.
  - intros H; injection H as <-; reflexivity.
Qed.

Lemma split_pairs_cases (t : tensor) (p : list nat) (d : nat) :
  shape t = p ++ [d] ->
  split_pairs t = Raise RuntimeError
  \/ exists m, d = 2 * m /\ 0 < numel p
       /\ split_pairs t
          = Ok (mkTensor Float32 (p ++ [m])
                  (pair_slice 0 t (numel (p ++ [m]))),
                mkTensor Float32 (p ++ [m])
                  (pair_slice 1 t (numel (p ++ [m])))).
Proof.
  intros Hs.
  destruct (Nat.Even_or_Odd d) as [[m ->] | [m ->]].
  - destruct (Nat.eq_dec (numel p) 0) as [Hz | Hnz].
    + left; unfold split_pairs, reshape; cbn [shape float].
      rewrite Hs, removelast_last, infer_size_pairs, Hz; reflexivity.
    + right; exists m; split; [reflexivity |]; split; [lia |].
      apply split_pairs_Ok; [exact Hs | lia].
  - left; apply (@split_pairs_odd t p m Hs).
Qed.

Lemma binop_Raise_inv (f : R -> R -> R) (a c : tensor) (e : exn) :
  binop f a c = Raise e -> e = RuntimeError.
Proof.
  unfold binop; destruct (broadcast_shapes (shape a) (shape c));
    intros H; [discriminate | injection H as <-; reflexivity].
Qed.

Lemma stack_last_Raise_inv (ts : list tensor) (e : exn) :
  stack_last ts = Raise e -> e = RuntimeError.
Proof.
  unfold stack_last; destruct ts as [| t0 rest];
    [intros H; injection H as <-; reflexivity |].
  destruct (forallb _ rest); intros H;
    [discriminate | injection H as <-; reflexivity].
Qed.

Ltac step_or_raise :=
  match goal with
  | |- bind ?m _ = Raise _ -> _ =>
      let E := fresh "E" in
      let H := fresh "H" in
      destruct m eqn:E; cbn [bind];
      [ | intros H; injection H as <-;
          first [ exact (@binop_Raise_inv _ _ _ _ E)
                | exact (@stack_last_Raise_inv _ _ E)
                | exact (@reshape_Raise _ _ _ E)
                | exact (@split_pairs_Raise _ _ E) ] ]
  end.

(** On a 4-dimensional query the only exception the kernel raises is the
    tensor library's RuntimeError. *)
Lemma apply_rotary_emb_Raise (query key : tensor) (b s h d : nat)
    (head_dim max_seq_len : Z) (theta : R) (e : exn) :
  shape query = [b; s; h; d] ->
  apply_rotary_emb query key head_dim max_seq_len theta = Raise e ->
  e = RuntimeError.
Proof.
  intros Hq; unfold apply_rotary_emb, tmul, tsub, tadd.
  rewrite Hq; cbn [unpack4 bind].
  step_or_raise. destruct a as [query_real query_imag].
  step_or_raise. destruct a as [key_real key_imag].
  destruct (Z.lt_ge_cases head_dim 0) as [Hneg | Hpos].
  { rewrite arange_step2_neg by exact Hneg; cbn [bind].
    intros H; injection H as <-; reflexivity. }
  rewrite arange_step2 by exact Hpos.
  rewrite arange_positions; cbn [bind].
  set (inv := scalar_rdiv 1 _).
  cbn [unsqueeze ndim shape length Nat.leb firstn skipn app t_dtype data bind].
  destruct (@angles_Ok s (map (fun i => IZR (0 + Z.of_nat i * 1)) (seq 0 s))
              inv (n_freq head_dim))
    as (ang & Hang & Sang & _);
    [reflexivity | rewrite length_map, length_seq; reflexivity |].
  unfold tmul in Hang; rewrite Hang; cbn [bind].
  unfold index_none_slice_none_slice.
  cbn [tsin tcos shape t_dtype data]; rewrite Sang; cbn [bind].
  do 16 step_or_raise.
  discriminate.
Qed.

Lemma broadcast_shapes_table_inv (b s h m M : nat) (ts : list nat) :
  broadcast_shapes [b; s; h; m] [1; s; 1; M] = Some ts ->
  exists X, broadcast_dim m M = Some X /\ ts = [b; s; h; X].
Proof.
  unfold broadcast_shapes; simpl.
  destruct (broadcast_dim m M) as [X |]; [| discriminate].
  rewrite !broadcast_dim_1_r, broadcast_dim_refl; simpl.
  intros H; injection H as <-; exists X; split; reflexivity.
Qed.

Lemma broadcast_dim_keeps (m M : nat) :
  broadcast_dim m M = Some m -> M = m \/ M = 1.
Proof.
  unfold broadcast_dim.
  destruct (m =? M) eqn:E1; [apply Nat.eqb_eq in E1; left; congruence |].
  destruct (m =? 1) eqn:E2; [intros H; injection H as ->; left; reflexivity |].
  destruct (M =? 1) eqn:E3; [apply Nat.eqb_eq in E3; right; exact E3 |].
  discriminate.
Qed.

(** When the rotated real part of a (b, s, h, m) tensor against tables of
    [M] frequencies can be stacked and reshaped to (b, s, h, 2 m), the
    tables have [m] frequencies or a single one. *)
Lemma rotation_success_inv (re im sin4 cos4 rc isn rr ri st out : tensor)
    (b s h m M : nat) :
  shape re = [b; s; h; m] -> shape im = [b; s; h; m] ->
  shape sin4 = [1; s; 1; M] -> shape cos4 = [1; s; 1; M] ->
  0 < numel [b; s; h] ->
  binop Rmult re cos4 = Ok rc ->
  binop Rmult im sin4 = Ok isn ->
  binop Rminus rc isn = Ok rr ->
  stack_last [rr; ri] = Ok st ->
  reshape st (map Z.of_nat [b; s; h; 2 * m]) = Ok out ->
  M = m \/ M = 1.
Proof.
  intros Sre Sim Ssin Scos Hpos Hrc His Hrr Hst Hout.
  apply binop_Ok_inv in Hrc; destruct Hrc as [_ Hrc].
  apply binop_Ok_inv in His; destruct His as [_ His].
  apply binop_Ok_inv in Hrr; destruct Hrr as [_ Hrr].
  rewrite Sre, Scos in Hrc; rewrite Sim, Ssin in His.
  destruct (@broadcast_shapes_table_inv _ _ _ _ _ _ Hrc) as (X & HX & Src).
  destruct (@broadcast_shapes_table_inv _ _ _ _ _ _ His) as (X' & HX' & Sis).
  assert (X' = X) by congruence; subst X'.
  rewrite Src, Sis, broadcast_shapes_refl in Hrr; injection Hrr as Srr.
  apply stack_pair_Ok_inv in Hst; destruct Hst as (_ & _ & Sst).
  rewrite reshape_exact in Hout.
  destruct (_ =? _) eqn:E in Hout; [| discriminate].
  apply Nat.eqb_eq in E; rewrite Sst, <- Srr in E; simpl in E, Hpos.
  assert (X = m) by nia; subst X.
  apply broadcast_dim_keeps; exact HX.
Qed.

(** What a successful call says about the shapes it was given. *)
Lemma apply_rotary_emb_Ok_inv (query key : tensor) (b s h d b' h' d' : nat)
    (head_dim max_seq_len : Z) (theta : R) (r : tensor * tensor) :
  shape query = [b; s; h; d] -> shape key = [b'; s; h'; d'] ->
  apply_rotary_emb query key head_dim max_seq_len theta = Ok r ->
  exists m m',
    d = 2 * m /\ d' = 2 * m'
    /\ (n_freq head_dim = m \/ n_freq head_dim = 1)
    /\ (n_freq head_dim = m' \/ n_freq head_dim = 1).
Proof.
  intros Hq Hk; unfold apply_rotary_emb, tmul, tsub, tadd.
  rewrite Hq, Hk; cbn [unpack4 bind].
  destruct (@split_pairs_cases query [b; s; h] d Hq)
    as [Eq | (m & -> & Hpq & Eq)]; rewrite Eq; cbn [bind];
    [discriminate |].
  destruct (@split_pairs_cases key [b'; s; h'] d' Hk)
    as [Ek | (m' & -> & Hpk & Ek)]; rewrite Ek; cbn [bind app];
    [discriminate |].
  destruct (Z.lt_ge_cases head_dim 0) as [Hneg | Hpos].
  { rewrite arange_step2_neg by exact Hneg; discriminate. }
  rewrite arange_step2 by exact Hpos.
  rewrite arange_positions; cbn [bind].
  set (inv := scalar_rdiv 1 _).
  cbn [unsqueeze ndim shape length Nat.leb firstn skipn app t_dtype data bind].
  destruct (@angles_Ok s (map (fun i => IZR (0 + Z.of_nat i * 1)) (seq 0 s))
              inv (n_freq head_dim))
    as (ang & Hang & Sang & _);
    [reflexivity | rewrite length_map, length_seq; reflexivity |].
  unfold tmul in Hang; rewrite Hang; cbn [bind].
  unfold index_none_slice_none_slice.
  cbn [tsin tcos shape t_dtype data]; rewrite Sang; cbn [bind].
  intros H.
  invert_bind H qrc Hqrc. invert_bind H qis Hqis. invert_bind H qrr Hqrr.
  invert_bind H qrs Hqrs. invert_bind H qic Hqic. invert_bind H qri Hqri.
  invert_bind H krc Hkrc. invert_bind H kis Hkis. invert_bind H krr Hkrr.
  invert_bind H krs Hkrs. invert_bind H kic Hkic. invert_bind H kri Hkri.
  invert_bind H qst Hqst. invert_bind H qo Hqo.
  invert_bind H kst Hkst. invert_bind H ko Hko.
  exists m, m'; split; [reflexivity |]; split; [reflexivity |].
  split.
  - eapply (@rotation_success_inv _ _ _ _ qrc qis qrr qri qst qo b s h m);
      try eassumption; reflexivity.
  - eapply (@rotation_success_inv _ _ _ _ krc kis krr kri kst ko b' s h' m');
      try eassumption; reflexivity.
Qed.

(** C8, as the code has it: for a 4-dimensional query and key of one
    sequence length and a head_dim that fits in 64 bits, the call raises
    the tensor library's RuntimeError, and so returns no tensors,
    whenever the last axis of the query or of the key is odd, or its
    number of pairs differs from the number of frequencies
    ceil(head_dim / 2) and that number is not 1. *)
Theorem apply_rotary_emb_shape_errors
    (query key : tensor) (b s h d b' h' d' : nat)
    (head_dim max_seq_len : Z) (theta : R) :
  shape query = [b; s; h; d] -> shape key = [b'; s; h'; d'] ->
  int64_range head_dim ->
  Nat.Odd d \/ Nat.Odd d'
  \/ (d / 2 <> n_freq head_dim /\ n_freq head_dim <> 1)
  \/ (d' / 2 <> n_freq head_dim /\ n_freq head_dim <> 1) ->
  apply_rotary_emb query key head_dim max_seq_len theta = Raise RuntimeError.
Proof.
  intros Hq Hk Hrange Hbad.
  destruct (apply_rotary_emb query key head_dim max_seq_len theta)
    as [r | e] eqn:E.
  - exfalso.
    destruct (@apply_rotary_emb_Ok_inv _ _ _ _ _ _ _ _ _ _ _ _ _ Hq Hk E)
      as (m & m' & -> & -> & HM & HM').
    rewrite !(Nat.mul_comm 2), !Nat.div_mul in Hbad by lia.
    destruct Hbad as [[x Hx] | [[x Hx] | [[H1 H2] | [H1 H2]]]]; lia.
  - rewrite (@apply_rotary_emb_Raise _ _ _ _ _ _ _ _ _ _ Hq E); reflexivity.
Qed.

(** The claim as the specification states it fails: with the declared
    head_dim 3, which is odd and differs from the last axis 4 of the
    query and key, the call returns. *)
Lemma apply_rotary_emb_mismatch_returns :
  Z.odd 3 = true
  /\ last (shape sample_wide) 0 <> 3
  /\ exists r, apply_rotary_emb sample_wide sample_wide 3 8 10000 = Ok r.
Proof.
  split; [reflexivity |].
  split; [simpl; lia |].
  eexists.
  lazy -[Rplus Rmult Rminus Rdiv Rinv Ropp cos sin Rpower IZR INR].
  reflexivity.
Qed.

(** ** The theorems at sample inputs *)

Lemma apply_rotary_emb_rotates_pairs_witness :
  exists qo ko,
    apply_rotary_emb sample_query sample_key 2 8 10000 = Ok (qo, ko)
    /\ shape qo = [1; 2; 1; 2] /\ shape ko = [1; 2; 2; 2]
    /\ pair_at qo 0 1 0 0
       = rotate (pair_at sample_query 0 1 0 0) (spec_angle 10000 2 1 0)
    /\ pair_at ko 0 1 1 0
       = rotate (pair_at sample_key 0 1 1 0) (spec_angle 10000 2 1 0).
Proof.
  destruct (@apply_rotary_emb_rotates_pairs sample_query sample_key
              1 2 1 1 2 1 2%Z 8%Z 10000%R)
    as (qo & ko & Hrun & Sq & Sk & Gq & Gk);
    try reflexivity; try lia; try lra.
  exists qo, ko.
  split; [exact Hrun |]. split; [exact Sq |]. split; [exact Sk |].
  split; [apply Gq; lia | apply Gk; lia].
Defined.

Lemma apply_rotary_emb_preserves_shape_witness :
  exists qo ko,
    apply_rotary_emb sample_query sample_key 2 8 10000 = Ok (qo, ko)
    /\ shape qo = shape sample_query /\ shape ko = shape sample_key.
Proof.
  apply (@apply_rotary_emb_preserves_shape sample_query sample_key
           1 2 1 1 2 1 2%Z 8%Z 10000%R);
    try reflexivity; lia.
Defined.

Lemma apply_rotary_emb_preserves_pair_norm_witness :
  exists qo ko,
    apply_rotary_emb sample_query sample_key 2 8 10000 = Ok (qo, ko)
    /\ (fst (pair_at qo 0 1 0 0) * fst (pair_at qo 0 1 0 0)
        + snd (pair_at qo 0 1 0 0) * snd (pair_at qo 0 1 0 0)
        = 3 * 3 + 4 * 4)%R
    /\ (fst (pair_at ko 0 1 1 0) * fst (pair_at ko 0 1 1 0)
        + snd (pair_at ko 0 1 1 0) * snd (pair_at ko 0 1 1 0)
        = 3 * 3 + 5 * 5)%R.
Proof.
  destruct (@apply_rotary_emb_preserves_pair_norm sample_query sample_key
              1 2 1 1 2 1 2%Z 8%Z 10000%R)
    as (qo & ko & Hrun & Nq & Nk);
    try reflexivity; try lia; try exact theta_10000_pos.
  exists qo, ko.
  split; [exact Hrun |].
  split; [apply (Nq 0 1 0 0); lia | apply (Nk 0 1 1 0); lia].
Defined.

Lemma apply_rotary_emb_relative_position_witness :
  exists qo ko,
    apply_rotary_emb sample_repeat sample_repeat 2 8 10000 = Ok (qo, ko)
    /\ pair_dot (pair_at qo 0 1 0 0) (pair_at ko 0 1 0 0)
       = pair_dot (pair_at qo 0 0 0 0) (pair_at ko 0 0 0 0).
Proof.
  destruct (@apply_rotary_emb_relative_position sample_repeat sample_repeat
              1 2 1 1 1 1 2%Z 8%Z 10000%R
              eq_refl eq_refl Nat.lt_0_1 Nat.lt_0_2 Nat.lt_0_1 Nat.lt_0_1
              Nat.lt_0_1 eq_refl theta_10000_pos
              0 0 0 0 1 1 0 0)
    as (qo & ko & Hrun & Hdot);
    try lia;
    try (intros f Hf; assert (f = 0) by lia; subst f; reflexivity).
  exists qo, ko.
  split; [exact Hrun | apply Hdot; lia].
Defined.

Lemma apply_rotary_emb_identity_at_position_zero_witness :
  code_angle 10000 2 0 0 = 0%R
  /\ apply_rotary_emb sample_query1 sample_key1 2 8 10000
     = Ok (sample_query1, sample_key1).
Proof.
  destruct (@apply_rotary_emb_identity_at_position_zero
              sample_query1 sample_key1 2 1 1 1 8%Z)
    as [Hangle Hrun];
    try reflexivity; try lia.
  split; [apply Hangle | exact Hrun].
Defined.

Lemma apply_rotary_emb_output_dtype_witness :
  t_dtype sample_query = Float64 /\ t_dtype sample_key = Float16
  /\ exists qo ko,
       apply_rotary_emb sample_query sample_key 2 8 10000 = Ok (qo, ko)
       /\ t_dtype qo = Float32 /\ t_dtype ko = Float32.
Proof.
  split; [reflexivity |]. split; [reflexivity |].
  eexists; eexists.
  refine ((fun H => conj H
             (@apply_rotary_emb_output_dtype _ _ _ _ _ _ _ H)) _).
  lazy -[Rplus Rmult Rminus Rdiv Rinv Ropp cos sin Rpower IZR INR].
  reflexivity.
Defined.

Lemma reshape_for_broadcast_spec_witness :
  reshape_for_broadcast sample_freqs sample_rank1 = Raise AssertionError
  /\ (exists r,
        reshape_for_broadcast sample_freqs1 sample_column = Ok r
        /\ data r = data sample_freqs1
        /\ length (shape r) = 2
        /\ nth 0 (shape r) 0 = 1 /\ nth 1 (shape r) 0 = 1)
  /\ exists r,
       reshape_for_broadcast sample_freqs sample_query = Ok r
       /\ data r = data sample_freqs
       /\ length (shape r) = 4
       /\ nth 0 (shape r) 0 = 1 /\ nth 1 (shape r) 0 = 2
       /\ nth 2 (shape r) 0 = 1 /\ nth 3 (shape r) 0 = 2.
Proof.
  split.
  { apply (proj1 (reshape_for_broadcast_spec sample_freqs sample_rank1)).
    left; unfold ndim; simpl; lia. }
  split.
  { destruct (proj1 (proj2 (reshape_for_broadcast_spec sample_freqs1
                              sample_column)))
      as (r & Hr & Hdata & _ & Hlen & Hnth);
      [unfold ndim; simpl; lia | reflexivity | simpl; lia |].
    exists r.
    split; [exact Hr |]. split; [exact Hdata |]. split; [exact Hlen |].
    split; [apply (Hnth 0) | apply (Hnth 1)]; unfold ndim; simpl; lia. }
  destruct (proj1 (proj2 (reshape_for_broadcast_spec sample_freqs
                            sample_query)))
    as (r & Hr & Hdata & _ & Hlen & Hnth);
    [unfold ndim; simpl; lia | reflexivity
    | unfold ndim; simpl; intros E; discriminate E |].
  exists r.
  split; [exact Hr |]. split; [exact Hdata |]. split; [exact Hlen |].
  split; [apply (Hnth 0); unfold ndim; simpl; lia |].
  split; [apply (Hnth 1); unfold ndim; simpl; lia |].
  split; [apply (Hnth 2); unfold ndim; simpl; lia |].
  apply (Hnth 3); unfold ndim; simpl; lia.
Defined.

Lemma apply_rotary_emb_shape_errors_witness :
  Nat.Odd 3
  /\ apply_rotary_emb sample_odd sample_odd 3 8 10000 = Raise RuntimeError.
Proof.
  assert (Hodd : Nat.Odd 3) by (exists 1; reflexivity).
  split; [exact Hodd |].
  apply (@apply_rotary_emb_shape_errors sample_odd sample_odd
           1 1 1 3 1 1 3 3%Z 8%Z 10000%R eq_refl eq_refl).
  - unfold int64_range; lia.
  - left; exact Hodd.
Defined.

(** * Further properties of rope.py *)

(** ** Tables of a single frequency

    When the table holds as many frequencies as the tensor holds pairs, or
    a single one, broadcasting reads frequency [bsel M i] for pair [i]. *)

Lemma binop_table_bcast (f : R -> R -> R) (a c : tensor) (b s h m M : nat) :
  shape a = [b; s; h; m] -> shape c = [1; s; 1; M] ->
  M = m \/ M = 1 ->
  exists t, binop f a c = Ok t
    /\ shape t = [b; s; h; m]
    /\ t_dtype t = promote_types (t_dtype a) (t_dtype c)
    /\ wf t
    /\ forall bi si hi i, bi < b -> si < s -> hi < h -> i < m ->
         get t [bi; si; hi; i]
         = f (get a [bi; si; hi; i]) (get c [0; si; 0; bsel M i]).
Proof.
  intros Ha Hc HM.
  destruct (@binop_Ok f a c [b; s; h; m])
    as (t & Ht & Hsh & Hd & Hwf & Hget).
  { rewrite Ha, Hc; unfold broadcast_shapes; simpl.
    replace (broadcast_dim m M) with (Some m)
      by (destruct HM as [-> | ->];
          [rewrite broadcast_dim_refl | rewrite broadcast_dim_1_r];
          reflexivity).
    rewrite !broadcast_dim_refl, !broadcast_dim_1_r; reflexivity. }
  exists t; repeat (split; [assumption |]).
  intros bi si hi i Hbi Hsi Hhi Hi.
  rewrite Hget by (repeat constructor; assumption).
  unfold get; rewrite Ha, Hc; unfold pad_shape; simpl.
  rewrite (bsel_lt Hbi), (bsel_lt Hsi), (bsel_lt Hhi), (bsel_lt Hi).
  reflexivity.
Qed.

Lemma bsel_table_lt (m M i : nat) : M = m \/ M = 1 -> i < m -> bsel M i < M.
Proof.
  intros [-> | ->] Hi; [rewrite bsel_lt by exact Hi; exact Hi |].
  unfold bsel; simpl; lia.
Qed.

Lemma rotation_chain_bcast (re im sin4 cos4 : tensor) (b s h m M : nat) :
  shape re = [b; s; h; m] -> shape im = [b; s; h; m] ->
  shape sin4 = [1; s; 1; M] -> shape cos4 = [1; s; 1; M] ->
  M = m \/ M = 1 ->
  t_dtype re = Float32 -> t_dtype im = Float32 ->
  t_dtype sin4 = Float32 -> t_dtype cos4 = Float32 ->
  exists rr ri,
    (forall (X : Type) (K : tensor -> tensor -> result X),
     (rc <- tmul re cos4 ;;
      isn <- tmul im sin4 ;;
      rot_real <- tsub rc isn ;;
      rs <- tmul re sin4 ;;
      ic <- tmul im cos4 ;;
      rot_imag <- tadd rs ic ;;
      K rot_real rot_imag) = K rr ri)
    /\ shape rr = [b; s; h; m] /\ shape ri = [b; s; h; m]
    /\ t_dtype rr = Float32 /\ t_dtype ri = Float32
    /\ wf rr /\ wf ri
    /\ forall bi si hi i, bi < b -> si < s -> hi < h -> i < m ->
         (get rr [bi; si; hi; i], get ri [bi; si; hi; i])
         = ((get re [bi; si; hi; i] * get cos4 [0%nat; si; 0%nat; bsel M i]
             - get im [bi; si; hi; i] * get sin4 [0%nat; si; 0%nat; bsel M i])%R,
            (get re [bi; si; hi; i] * get sin4 [0%nat; si; 0%nat; bsel M i]
             + get im [bi; si; hi; i] * get cos4 [0%nat; si; 0%nat; bsel M i])%R).
Proof.
  intros Hre Him Hsin Hcos HM Dre Dim Dsin Dcos.
  destruct (@binop_table_bcast Rmult re cos4 b s h m M Hre Hcos HM)
    as (rc & Hrc & Src & Drc & _ & Grc).
  destruct (@binop_table_bcast Rmult im sin4 b s h m M Him Hsin HM)
    as (isn & His & Sis & Dis & _ & Gis).
  destruct (@binop_same_shape Rminus rc isn)
    as (rr & Hrr & Srr & Drr & Wrr & Grr); [congruence |].
  destruct (@binop_table_bcast Rmult re sin4 b s h m M Hre Hsin HM)
    as (rs & Hrs & Srs & Drs & _ & Grs).
  destruct (@binop_table_bcast Rmult im cos4 b s h m M Him Hcos HM)
    as (ic & Hic & Sic & Dic & _ & Gic).
  destruct (@binop_same_shape Rplus rs ic)
    as (ri & Hri & Sri & Dri & Wri & Gri); [congruence |].
  exists rr, ri.
  split.
  { intros X K; unfold tmul, tsub, tadd.
    rewrite Hrc, His; cbn [bind]; rewrite Hrr, Hrs, Hic; cbn [bind].
    rewrite Hri; reflexivity. }
  split; [congruence |]. split; [congruence |].
  split; [rewrite Drr, Drc, Dis, Dre, Dim, Dsin, Dcos; reflexivity |].
  split; [rewrite Dri, Drs, Dic, Dre, Dim, Dsin, Dcos; reflexivity |].
  split; [exact Wrr |]. split; [exact Wri |].
  intros bi si hi i Hbi Hsi Hhi Hi.
  assert (Hin : in_range [bi; si; hi; i] [b; s; h; m])
    by (repeat constructor; assumption).
  rewrite Grr, Gri by (rewrite ?Src, ?Srs; exact Hin).
  rewrite Grc, Gis, Grs, Gic by assumption.
  reflexivity.
Qed.

(** The kernel on non-empty 4-dimensional tensors whose pair counts [m]
    and [m'] each equal the number of frequencies or meet a single
    frequency. *)
Lemma apply_rotary_emb_bcast (query key : tensor) (b s h b' h' m m' : nat)
    (head_dim max_seq_len : Z) (theta : R) :
  shape query = [b; s; h; 2 * m] -> shape key = [b'; s; h'; 2 * m'] ->
  0 < b -> 0 < s -> 0 < h -> 0 < b' -> 0 < h' ->
  (0 <= head_dim)%Z ->
  n_freq head_dim = m \/ n_freq head_dim = 1 ->
  n_freq head_dim = m' \/ n_freq head_dim = 1 ->
  exists qo ko,
    apply_rotary_emb query key head_dim max_seq_len theta = Ok (qo, ko)
    /\ shape qo = shape query /\ shape ko = shape key
    /\ t_dtype qo = Float32 /\ t_dtype ko = Float32
    /\ wf qo /\ wf ko
    /\ (forall bi si hi i, bi < b -> si < s -> hi < h -> i < m ->
          pair_at qo bi si hi i
          = rotate (pair_at query bi si hi i)
              (code_angle theta head_dim si (bsel (n_freq head_dim) i)))
    /\ (forall bi si hi i, bi < b' -> si < s -> hi < h' -> i < m' ->
          pair_at ko bi si hi i
          = rotate (pair_at key bi si hi i)
              (code_angle theta head_dim si (bsel (n_freq head_dim) i))).
Proof.
  intros Hq Hk Hb Hs Hh Hb' Hh' Hhd HM HM'.
  set (M := n_freq head_dim) in *.
  unfold apply_rotary_emb.
  rewrite Hq, Hk; cbn [unpack4 bind].
  rewrite (@split_pairs_Ok query [b; s; h] m Hq) by (simpl; nia).
  rewrite (@split_pairs_Ok key [b'; s; h'] m' Hk) by (simpl; nia).
  cbn [bind app].
  rewrite arange_step2 by lia.
  rewrite arange_positions.
  cbn [bind].
  set (qre := mkTensor Float32 [b; s; h; m] (pair_slice 0 query _)).
  set (qim := mkTensor Float32 [b; s; h; m] (pair_slice 1 query _)).
  set (kre := mkTensor Float32 [b'; s; h'; m'] (pair_slice 0 key _)).
  set (kim := mkTensor Float32 [b'; s; h'; m'] (pair_slice 1 key _)).
  set (inv := scalar_rdiv 1 _).
  cbn [unsqueeze ndim shape length Nat.leb firstn skipn app t_dtype data bind].
  destruct (@angles_Ok s (map (fun i => IZR (0 + Z.of_nat i * 1)) (seq 0 s))
              inv M) as (ang & Hang & Sang & Dang & Wang & Gang).
  { reflexivity. }
  { rewrite length_map, length_seq; reflexivity. }
  rewrite Hang; cbn [bind].
  unfold index_none_slice_none_slice.
  cbn [tsin tcos shape t_dtype data]; rewrite Sang; cbn [bind].
  set (sin4 := mkTensor _ [1; s; 1; M] (map sin _)).
  set (cos4 := mkTensor _ [1; s; 1; M] (map cos _)).
  assert (Dsin : t_dtype sin4 = Float32)
    by (subst sin4; cbn [t_dtype]; rewrite Dang; reflexivity).
  assert (Dcos : t_dtype cos4 = Float32)
    by (subst cos4; cbn [t_dtype]; rewrite Dang; reflexivity).
  destruct (@rotation_chain_bcast qre qim sin4 cos4 b s h m M)
    as (qrr & qri & Hqchain & Sqrr & Sqri & Dqrr & Dqri & Wqrr & Wqri & Gq);
    try reflexivity; try assumption.
  rewrite Hqchain; clear Hqchain.
  destruct (@rotation_chain_bcast kre kim sin4 cos4 b' s h' m' M)
    as (krr & kri & Hkchain & Skrr & Skri & Dkrr & Dkri & Wkrr & Wkri & Gk);
    try reflexivity; try assumption.
  rewrite Hkchain; clear Hkchain.
  rewrite stack_pair_Ok by congruence; cbn [bind].
  rewrite reshape_exact; cbn [shape t_dtype data]; rewrite Sqrr.
  replace (numel [b; s; h; 2 * m] =? numel ([b; s; h; m] ++ [2])) with true
    by (symmetry; apply Nat.eqb_eq; simpl; lia).
  cbn [bind].
  rewrite stack_pair_Ok by congruence; cbn [bind].
  rewrite reshape_exact; cbn [shape t_dtype data]; rewrite Skrr.
  replace (numel [b'; s; h'; 2 * m'] =? numel ([b'; s; h'; m'] ++ [2]))
    with true by (symmetry; apply Nat.eqb_eq; simpl; lia).
  cbn [bind].
  assert (Gtab : forall g dt si i, si < s -> i < M ->
            get (mkTensor dt [1; s; 1; M] (map g (data ang)))
                [0; si; 0; i]
            = g (code_angle theta head_dim si i)).
  { intros g dt si i Hsi Hi.
    rewrite (table_get g dt Sang Wang Hsi Hi), Gang by assumption.
    rewrite nth_map_seq by exact Hsi.
    subst inv; rewrite inv_freq_nth; [reflexivity | reflexivity | exact Hi]. }
  eexists; eexists; split; [reflexivity |].
  cbn [shape t_dtype].
  split; [reflexivity |]. split; [reflexivity |].
  split; [rewrite Dqrr, Dqri; reflexivity |].
  split; [rewrite Dkrr, Dkri; reflexivity |].
  split; [unfold wf; cbn [shape data];
          rewrite length_map, length_seq; simpl; lia |].
  split; [unfold wf; cbn [shape data];
          rewrite length_map, length_seq; simpl; lia |].
  split.
  - intros bi si hi i Hbi Hsi Hhi Hi.
    specialize (Gq bi si hi i Hbi Hsi Hhi Hi).
    injection Gq as Gre Gim.
    unfold rotate, pair_at; cbn [fst snd].
    match goal with |- (get ?Q _, _) = _ => set (out := Q) end.
    replace (get out [bi; si; hi; 2 * i])
      with (get out [bi; si; hi; 2 * i + 0])
      by (rewrite Nat.add_0_r; reflexivity).
    subst out.
    rewrite !(@stack_get qrr qri _ b s h m) by (assumption || lia).
    cbn [nth]; rewrite Gre, Gim.
    subst qre qim sin4 cos4.
    rewrite !pair_slice_get, !Gtab
      by (assumption || exact (bsel_table_lt HM Hi)).
    rewrite Nat.add_0_r; reflexivity.
  - intros bi si hi i Hbi Hsi Hhi Hi.
    specialize (Gk bi si hi i Hbi Hsi Hhi Hi).
    injection Gk as Gre Gim.
    unfold rotate, pair_at; cbn [fst snd].
    match goal with |- (get ?Q _, _) = _ => set (out := Q) end.
    replace (get out [bi; si; hi; 2 * i])
      with (get out [bi; si; hi; 2 * i + 0])
      by (rewrite Nat.add_0_r; reflexivity).
    subst out.
    rewrite !(@stack_get krr kri _ b' s h' m') by (assumption || lia).
    cbn [nth]; rewrite Gre, Gim.
    subst kre kim sin4 cos4.
    rewrite !pair_slice_get, !Gtab
      by (assumption || exact (bsel_table_lt HM' Hi)).
    rewrite Nat.add_0_r; reflexivity.
Qed.

(** ** Which exception, and when *)

(** The query must have exactly four axes: the unpacking of its shape on
    line 51 raises a ValueError otherwise, before anything is computed. *)
Theorem apply_rotary_emb_query_rank
    (query key : tensor) (head_dim max_seq_len : Z) (theta : R) :
  ndim query <> 4 ->
  apply_rotary_emb query key head_dim max_seq_len theta = Raise ValueError.
Proof.
  unfold apply_rotary_emb, ndim; intros Hnd.
  destruct (shape query) as [| d0 [| d1 [| d2 [| d3 [| d4 rest]]]]];
    try reflexivity.
  simpl in Hnd; lia.
Qed.

(** On a 4-dimensional query, with a head_dim that fits in 64 bits,
    every failure of the kernel is the tensor library's RuntimeError:
    the call never raises an AssertionError, an IndexError or a
    ValueError. *)
Theorem apply_rotary_emb_only_runtime_errors
    (query key : tensor) (head_dim max_seq_len : Z) (theta : R) :
  ndim query = 4 -> int64_range head_dim ->
  forall e,
    apply_rotary_emb query key head_dim max_seq_len theta = Raise e ->
    e = RuntimeError.
Proof.
  unfold ndim; intros Hnd Hrange e Hrun.
  destruct (shape query) as [| b [| s [| h [| d [| d4 rest]]]]] eqn:Hq;
    simpl in Hnd; try lia.
  exact (@apply_rotary_emb_Raise query key b s h d head_dim max_seq_len
           theta e Hq Hrun).
Qed.

Lemma split_pairs_empty (t : tensor) (p : list nat) (d : nat) :
  shape t = p ++ [d] -> numel p = 0 -> split_pairs t = Raise RuntimeError.
Proof.
  intros Hs Hz; unfold split_pairs, reshape; cbn [shape float].
  rewrite Hs, removelast_last, infer_size_pairs, Hz; reflexivity.
Qed.

(** Empty inputs are refused: when the batch, sequence or head axis of
    the query has size 0, or the axes of the key before its last one
    hold no vector, the reshape with [-1] is ambiguous and the call
    raises a RuntimeError. *)
Theorem apply_rotary_emb_empty_input
    (query key : tensor) (b s h d : nat) (pk : list nat) (dk : nat)
    (head_dim max_seq_len : Z) (theta : R) :
  shape query = [b; s; h; d] -> shape key = pk ++ [dk] ->
  b * s * h = 0 \/ numel pk = 0 ->
  apply_rotary_emb query key head_dim max_seq_len theta = Raise RuntimeError.
Proof.
  intros Hq Hk Hempty; unfold apply_rotary_emb.
  rewrite Hq; cbn [unpack4 bind].
  destruct (split_pairs query) as [[qre qim] | e] eqn:Eq; cbn [bind].
  - destruct Hempty as [Hz | Hz].
    + rewrite (@split_pairs_empty query [b; s; h] d Hq) in Eq
        by (simpl; nia).
      discriminate.
    + rewrite (@split_pairs_empty key pk dk Hk Hz); reflexivity.
  - rewrite (@split_pairs_Raise query e Eq); reflexivity.
Qed.

Lemma negative_head_dim_raises (query key : tensor) (b s h d : nat)
    (head_dim max_seq_len : Z) (theta : R) :
  shape query = [b; s; h; d] -> (head_dim < 0)%Z ->
  apply_rotary_emb query key head_dim max_seq_len theta = Raise RuntimeError.
Proof.
  intros Hq Hneg.
  unfold apply_rotary_emb; rewrite Hq; cbn [unpack4 bind].
  destruct (split_pairs query) as [[qre qim] | e] eqn:Eq; cbn [bind];
    [| rewrite (@split_pairs_Raise query e Eq); reflexivity].
  destruct (split_pairs key) as [[kre kim] | e] eqn:Ek; cbn [bind];
    [| rewrite (@split_pairs_Raise key e Ek); reflexivity].
  rewrite arange_step2_neg by exact Hneg; reflexivity.
Qed.

(** A negative head_dim that fits in 64 bits is refused:
    [arange(0, head_dim, 2)] has inconsistent bounds, so a call on a
    4-dimensional query raises a RuntimeError. *)
Theorem apply_rotary_emb_negative_head_dim
    (query key : tensor) (head_dim max_seq_len : Z) (theta : R) :
  ndim query = 4 -> int64_range head_dim -> (head_dim < 0)%Z ->
  apply_rotary_emb query key head_dim max_seq_len theta = Raise RuntimeError.
Proof.
  unfold ndim; intros Hnd Hrange Hneg.
  destruct (shape query) as [| b [| s [| h [| d [| d4 rest]]]]] eqn:Hq;
    simpl in Hnd; try lia.
  exact (@negative_head_dim_raises query key b s h d head_dim max_seq_len
           theta Hq Hneg).
Qed.

(** ** Every returned result *)

Lemma stack_reshape_wf (re im st out : tensor) (s : list nat) :
  stack_last [re; im] = Ok st ->
  reshape st (map Z.of_nat s) = Ok out ->
  shape out = s /\ wf out.
Proof.
  intros Hst Hout.
  destruct (list_eq_dec Nat.eq_dec (shape im) (shape re)) as [E | E];
    [| rewrite (stack_pair_Raise _ _ E) in Hst; discriminate].
  rewrite (stack_pair_Ok _ _ E) in Hst; injection Hst as <-.
  rewrite reshape_exact in Hout; cbn [shape t_dtype data] in Hout.
  destruct (_ =? _) eqn:En in Hout; [| discriminate].
  injection Hout as <-; apply Nat.eqb_eq in En.
  split; [reflexivity |].
  unfold wf; cbn [shape data].
  rewrite length_map, length_seq, En, numel_app; simpl; lia.
Qed.

(** Whenever the call returns, also on inputs the docstring does not
    foresee, the outputs have the shapes of the query and of the key and
    hold one value per index. *)
Theorem apply_rotary_emb_returns_input_shapes
    (query key : tensor) (head_dim max_seq_len : Z) (theta : R)
    (query_out key_out : tensor) :
  apply_rotary_emb query key head_dim max_seq_len theta
  = Ok (query_out, key_out) ->
  shape query_out = shape query /\ shape key_out = shape key
  /\ wf query_out /\ wf key_out.
Proof.
  unfold apply_rotary_emb; intros H.
  invert_bind H shp Hshp; destruct shp as [[[d0 seqlen] d2] d3].
  invert_bind H qp Hqp; destruct qp as [query_real query_imag].
  invert_bind H kp Hkp; destruct kp as [key_real key_imag].
  invert_bind H ar Har.
  invert_bind H pos0 Hpos.
  invert_bind H positions Hpositions.
  invert_bind H angles Hangles.
  invert_bind H sin_angles Hsin.
  invert_bind H cos_angles Hcos.
  invert_bind H qrc Hqrc. invert_bind H qis Hqis. invert_bind H qrr Hqrr.
  invert_bind H qrs Hqrs. invert_bind H qic Hqic. invert_bind H qri Hqri.
  invert_bind H krc Hkrc. invert_bind H kis Hkis. invert_bind H krr Hkrr.
  invert_bind H krs Hkrs. invert_bind H kic Hkic. invert_bind H kri Hkri.
  invert_bind H qst Hqst. invert_bind H qo Hqo.
  invert_bind H kst Hkst. invert_bind H ko Hko.
  injection H as <- <-.
  destruct (@stack_reshape_wf _ _ _ _ _ Hqst Hqo) as [Sq Wq].
  destruct (@stack_reshape_wf _ _ _ _ _ Hkst Hko) as [Sk Wk].
  repeat split; assumption.
Qed.

(** ** Rotations and whole vectors *)

Lemma rotate_add (p : R * R) (a c : R) :
  rotate (rotate p a) c = rotate p (a + c).
Proof.
  destruct p as [x y]; unfold rotate; cbn [fst snd].
  rewrite cos_plus, sin_plus; f_equal; ring.
Qed.

Lemma code_angle_first (theta : R) (head_dim : Z) (pos : nat) :
  code_angle theta head_dim pos 0 = INR pos.
Proof.
  unfold code_angle, code_inv_freq, Rpower; simpl Z.of_nat.
  rewrite Z.add_0_l, Z.mul_1_r, Z.mul_0_l, <- INR_IZR_INZ.
  unfold Rdiv; rewrite !Rmult_0_l, exp_0, Rinv_1; ring.
Qed.

Lemma sum_pairs_ext (f g : nat -> R) (m : nat) :
  (forall i, i < m -> f i = g i) -> sum_pairs f m = sum_pairs g m.
Proof.
  intros Hfg; unfold sum_pairs; f_equal.
  apply map_ext_in; intros i Hi; apply in_seq in Hi.
  apply Hfg; lia.
Qed.

(** Two well-formed tensors of shape (b, s, h, 2 m) with one dtype that
    agree on every pair are equal. *)
Lemma pairs_ext (a c : tensor) (b s h m : nat) :
  shape a = [b; s; h; 2 * m] -> shape c = [b; s; h; 2 * m] ->
  t_dtype a = t_dtype c -> wf a -> wf c ->
  (forall bi si hi i, bi < b -> si < s -> hi < h -> i < m ->
     pair_at a bi si hi i = pair_at c bi si hi i) ->
  a = c.
Proof.
  intros Sa Sc Hd Wa Wc Hp.
  assert (Hdata : data a = data c).
  { apply data_ext; [congruence | exact Wa | exact Wc |].
    intros idx Hidx; rewrite Sa in Hidx.
    destruct (in_range4_inv Hidx)
      as (bi & si & hi & j & -> & Hbi & Hsi & Hhi & Hj).
    assert (Hi : j / 2 < m) by (apply Nat.Div0.div_lt_upper_bound; lia).
    specialize (Hp bi si hi (j / 2) Hbi Hsi Hhi Hi).
    unfold pair_at in Hp; injection Hp as H0 H1.
    pose proof (Nat.div_mod_eq j 2) as Hj2.
    assert (Hr : j mod 2 < 2) by (apply Nat.mod_upper_bound; lia).
    destruct (j mod 2) as [| [| r]] eqn:Er; [| | lia].
    - replace j with (2 * (j / 2)) by lia; exact H0.
    - replace j with (2 * (j / 2) + 1) by lia; exact H1. }
  destruct a as [da sa la], c as [dc sc lc]; simpl in *.
  congruence.
Qed.

Section ValidCall.

Variables query key : tensor.
Variables b s h b' h' m : nat.
Variables (head_dim max_seq_len : Z) (theta : R).

Hypothesis Hq : shape query = [b; s; h; 2 * m].
Hypothesis Hk : shape key = [b'; s; h'; 2 * m].
Hypothesis Hb : 0 < b.
Hypothesis Hs : 0 < s.
Hypothesis Hh : 0 < h.
Hypothesis Hb' : 0 < b'.
Hypothesis Hh' : 0 < h'.
Hypothesis Hhd : head_dim = Z.of_nat (2 * m).
Hypothesis Htheta : (0 < theta)%R.

(** For a positive theta the vectors at sequence position 0 are returned
    unrotated, for every batch entry and head. *)
Theorem apply_rotary_emb_position_zero_unchanged :
  exists qo ko,
    apply_rotary_emb query key head_dim max_seq_len theta = Ok (qo, ko)
    /\ (forall bi hi i, bi < b -> hi < h -> i < m ->
          pair_at qo bi 0 hi i = pair_at query bi 0 hi i)
    /\ (forall bi hi i, bi < b' -> hi < h' -> i < m ->
          pair_at ko bi 0 hi i = pair_at key bi 0 hi i).
Proof.
  pose proof Htheta as Hpos.
  destruct (apply_rotary_emb_valid query key m max_seq_len theta
              Hq Hk Hb Hs Hh Hb' Hh' Hhd)
    as (qo & ko & Hrun & _ & _ & _ & _ & _ & _ & Gq & Gk).
  exists qo, ko; split; [exact Hrun |].
  split; intros bi hi i Hbi Hhi Hi.
  - rewrite Gq, code_angle_zero, rotate_zero by assumption; reflexivity.
  - rewrite Gk, code_angle_zero, rotate_zero by assumption; reflexivity.
Qed.

(** The first pair of every vector is rotated by exactly [pos] radians:
    its frequency is theta^0 = 1 whatever theta and head_dim are. *)
Theorem apply_rotary_emb_first_pair_angle :
  0 < m ->
  exists qo ko,
    apply_rotary_emb query key head_dim max_seq_len theta = Ok (qo, ko)
    /\ (forall bi pos hi, bi < b -> pos < s -> hi < h ->
          pair_at qo bi pos hi 0
          = rotate (pair_at query bi pos hi 0) (INR pos))
    /\ (forall bi pos hi, bi < b' -> pos < s -> hi < h' ->
          pair_at ko bi pos hi 0
          = rotate (pair_at key bi pos hi 0) (INR pos)).
Proof.
  intros Hm.
  destruct (apply_rotary_emb_valid query key m max_seq_len theta
              Hq Hk Hb Hs Hh Hb' Hh' Hhd)
    as (qo & ko & Hrun & _ & _ & _ & _ & _ & _ & Gq & Gk).
  exists qo, ko; split; [exact Hrun |].
  split; intros bi pos hi Hbi Hp Hhi.
  - rewrite Gq, code_angle_first by assumption; reflexivity.
  - rewrite Gk, code_angle_first by assumption; reflexivity.
Qed.

(** For a positive theta, feeding the outputs back into the kernel
    rotates every pair by twice its angle: rotations at one position add
    up. *)
Theorem apply_rotary_emb_twice :
  exists qo ko qo2 ko2,
    apply_rotary_emb query key head_dim max_seq_len theta = Ok (qo, ko)
    /\ apply_rotary_emb qo ko head_dim max_seq_len theta = Ok (qo2, ko2)
    /\ (forall bi pos hi i, bi < b -> pos < s -> hi < h -> i < m ->
          pair_at qo2 bi pos hi i
          = rotate (pair_at query bi pos hi i)
              (2 * spec_angle theta (2 * m) pos i)%R)
    /\ (forall bi pos hi i, bi < b' -> pos < s -> hi < h' -> i < m ->
          pair_at ko2 bi pos hi i
          = rotate (pair_at key bi pos hi i)
              (2 * spec_angle theta (2 * m) pos i)%R).
Proof.
  pose proof Htheta as Hpos.
  destruct (apply_rotary_emb_valid query key m max_seq_len theta
              Hq Hk Hb Hs Hh Hb' Hh' Hhd)
    as (qo & ko & Hrun & Sq & Sk & _ & _ & _ & _ & Gq & Gk).
  rewrite Hq in Sq; rewrite Hk in Sk.
  destruct (apply_rotary_emb_valid qo ko m max_seq_len theta
              Sq Sk Hb Hs Hh Hb' Hh' Hhd)
    as (qo2 & ko2 & Hrun2 & _ & _ & _ & _ & _ & _ & Gq2 & Gk2).
  exists qo, ko, qo2, ko2.
  split; [exact Hrun |]. split; [exact Hrun2 |].
  split; intros bi pos hi i Hbi Hp Hhi Hi.
  - rewrite Gq2, Gq, rotate_add, Hhd, code_angle_spec by assumption.
    f_equal; ring.
  - rewrite Gk2, Gk, rotate_add, Hhd, code_angle_spec by assumption.
    f_equal; ring.
Qed.

(** For a positive theta the squared Euclidean norm of every query and
    key vector is preserved (exactly, in real arithmetic). *)
Theorem apply_rotary_emb_preserves_vector_norm :
  exists qo ko,
    apply_rotary_emb query key head_dim max_seq_len theta = Ok (qo, ko)
    /\ (forall bi si hi, bi < b -> si < s -> hi < h ->
          vec_sq_norm qo bi si hi m = vec_sq_norm query bi si hi m)
    /\ (forall bi si hi, bi < b' -> si < s -> hi < h' ->
          vec_sq_norm ko bi si hi m = vec_sq_norm key bi si hi m).
Proof.
  pose proof Htheta as Hpos.
  destruct (apply_rotary_emb_valid query key m max_seq_len theta
              Hq Hk Hb Hs Hh Hb' Hh' Hhd)
    as (qo & ko & Hrun & _ & _ & _ & _ & _ & _ & Gq & Gk).
  exists qo, ko; split; [exact Hrun |].
  split; intros bi si hi Hbi Hsi Hhi; unfold vec_sq_norm;
    apply sum_pairs_ext; intros i Hi; unfold pair_dot.
  - rewrite Gq by assumption; apply rotate_norm.
  - rewrite Gk by assumption; apply rotate_norm.
Qed.

(** For a positive theta the attention score, the dot product of a
    rotated query vector with a rotated key vector, depends on their
    positions only through the
    difference: one query vector at positions [i] and [i'] and one key
    vector at positions [j] and [j'] with [i - j = i' - j'] score the
    same. *)
Theorem apply_rotary_emb_score_relative
    (bq hq bk hk i j i' j' : nat) :
  bq < b -> hq < h -> bk < b' -> hk < h' ->
  i < s -> j < s -> i' < s -> j' < s ->
  i + j' = i' + j ->
  (forall f, f < m ->
     pair_at query bq i hq f = pair_at query bq i' hq f) ->
  (forall f, f < m ->
     pair_at key bk j hk f = pair_at key bk j' hk f) ->
  exists qo ko,
    apply_rotary_emb query key head_dim max_seq_len theta = Ok (qo, ko)
    /\ vec_dot qo bq i hq ko bk j hk m = vec_dot qo bq i' hq ko bk j' hk m.
Proof.
  pose proof Htheta as Hpos.
  intros Hbq Hhq Hbk Hhk Hi Hj Hi' Hj' Hdiff Hqv Hkv.
  destruct (apply_rotary_emb_valid query key m max_seq_len theta
              Hq Hk Hb Hs Hh Hb' Hh' Hhd)
    as (qo & ko & Hrun & _ & _ & _ & _ & _ & _ & Gq & Gk).
  exists qo, ko; split; [exact Hrun |].
  unfold vec_dot; apply sum_pairs_ext; intros f Hf.
  rewrite !Gq, !Gk by assumption.
  rewrite !rotate_dot, (Hqv f Hf), (Hkv f Hf).
  rewrite (@code_angle_diff theta head_dim i j i' j' f Hdiff).
  reflexivity.
Qed.

(** Each output is computed from its own input: with another key of the
    same sequence length and width the query output is the same tensor,
    and with another query the key output is the same tensor. *)
Theorem apply_rotary_emb_outputs_independent
    (query2 key2 : tensor) (b2 h2 b2' h2' : nat) :
  shape query2 = [b2; s; h2; 2 * m] -> shape key2 = [b2'; s; h2'; 2 * m] ->
  0 < b2 -> 0 < h2 -> 0 < b2' -> 0 < h2' ->
  exists qo ko qo2 ko2,
    apply_rotary_emb query key head_dim max_seq_len theta = Ok (qo, ko)
    /\ apply_rotary_emb query key2 head_dim max_seq_len theta = Ok (qo, ko2)
    /\ apply_rotary_emb query2 key head_dim max_seq_len theta = Ok (qo2, ko).
Proof.
  intros Hq2 Hk2 Hb2 Hh2 Hb2' Hh2'.
  destruct (apply_rotary_emb_valid query key m max_seq_len theta
              Hq Hk Hb Hs Hh Hb' Hh' Hhd)
    as (qo & ko & Hrun & Sq & Sk & Dq & Dk & Wq & Wk & Gq & Gk).
  destruct (apply_rotary_emb_valid query key2 m max_seq_len theta
              Hq Hk2 Hb Hs Hh Hb2' Hh2' Hhd)
    as (qoa & ko2 & Hruna & Sqa & _ & Dqa & _ & Wqa & _ & Gqa & _).
  destruct (apply_rotary_emb_valid query2 key m max_seq_len theta
              Hq2 Hk Hb2 Hs Hh2 Hb' Hh' Hhd)
    as (qo2 & kob & Hrunb & _ & Skb & _ & Dkb & _ & Wkb & _ & Gkb).
  assert (Eq : qoa = qo).
  { apply (@pairs_ext qoa qo b s h m); try congruence.
    intros bi si hi i Hbi Hsi Hhi Hi.
    rewrite Gqa, Gq by assumption; reflexivity. }
  assert (Ek : kob = ko).
  { apply (@pairs_ext kob ko b' s h' m); try congruence.
    intros bi si hi i Hbi Hsi Hhi Hi.
    rewrite Gkb, Gk by assumption; reflexivity. }
  subst qoa kob.
  exists qo, ko, qo2, ko2; repeat split; assumption.
Qed.

End ValidCall.

(** ** Declared head_dim against the tensors *)

Lemma n_freq_1_2 (head_dim : Z) :
  head_dim = 1%Z \/ head_dim = 2%Z -> n_freq head_dim = 1.
Proof. intros [-> | ->]; reflexivity. Qed.

(** A declared head_dim of 1 or 2 yields a single frequency, which
    broadcasts over tensors of any even width: the call returns, and
    every pair of every vector is rotated by [pos] radians, the angle of
    pair 0, whatever its index. *)
Theorem apply_rotary_emb_single_frequency
    (query key : tensor) (b s h b' h' m m' : nat)
    (head_dim max_seq_len : Z) (theta : R) :
  shape query = [b; s; h; 2 * m] -> shape key = [b'; s; h'; 2 * m'] ->
  0 < b -> 0 < s -> 0 < h -> 0 < b' -> 0 < h' ->
  head_dim = 1%Z \/ head_dim = 2%Z ->
  exists qo ko,
    apply_rotary_emb query key head_dim max_seq_len theta = Ok (qo, ko)
    /\ (forall bi pos hi i, bi < b -> pos < s -> hi < h -> i < m ->
          pair_at qo bi pos hi i
          = rotate (pair_at query bi pos hi i) (INR pos))
    /\ (forall bi pos hi i, bi < b' -> pos < s -> hi < h' -> i < m' ->
          pair_at ko bi pos hi i
          = rotate (pair_at key bi pos hi i) (INR pos)).
Proof.
  intros Hq Hk Hb Hs Hh Hb' Hh' Hhd.
  pose proof (n_freq_1_2 Hhd) as HM.
  destruct (@apply_rotary_emb_bcast query key b s h b' h' m m' head_dim
              max_seq_len theta Hq Hk Hb Hs Hh Hb' Hh')
    as (qo & ko & Hrun & _ & _ & _ & _ & _ & _ & Gq & Gk);
    [destruct Hhd; lia | right; exact HM | right; exact HM |].
  exists qo, ko; split; [exact Hrun |].
  rewrite HM in Gq, Gk.
  split; intros bi pos hi i Hbi Hp Hhi Hi.
  - rewrite Gq by assumption.
    change (bsel 1 i) with 0; rewrite code_angle_first; reflexivity.
  - rewrite Gk by assumption.
    change (bsel 1 i) with 0; rewrite code_angle_first; reflexivity.
Qed.

(** When the call returns: for a non-empty 4-dimensional query and key
    of one sequence length, exactly when head_dim is not negative, both
    last axes are even and the number of frequencies ceil(head_dim / 2)
    is, for each tensor, its number of pairs or 1. *)
Theorem apply_rotary_emb_returns_iff
    (query key : tensor) (b s h d b' h' d' : nat)
    (head_dim max_seq_len : Z) (theta : R) :
  shape query = [b; s; h; d] -> shape key = [b'; s; h'; d'] ->
  0 < b -> 0 < s -> 0 < h -> 0 < b' -> 0 < h' ->
  ((exists r, apply_rotary_emb query key head_dim max_seq_len theta = Ok r)
   <-> (0 <= head_dim)%Z
       /\ exists m m',
            d = 2 * m /\ d' = 2 * m'
            /\ (n_freq head_dim = m \/ n_freq head_dim = 1)
            /\ (n_freq head_dim = m' \/ n_freq head_dim = 1)).
Proof.
  intros Hq Hk Hb Hs Hh Hb' Hh'; split.
  - intros [r Hrun]; split.
    + destruct (Z.lt_ge_cases head_dim 0) as [Hneg | Hpos]; [| exact Hpos].
      rewrite (@negative_head_dim_raises query key b s h d head_dim
                 max_seq_len theta Hq Hneg) in Hrun.
      discriminate.
    + exact (@apply_rotary_emb_Ok_inv query key b s h d b' h' d' head_dim
               max_seq_len theta r Hq Hk Hrun).
  - intros (Hpos & m & m' & -> & -> & HM & HM').
    destruct (@apply_rotary_emb_bcast query key b s h b' h' m m' head_dim
                max_seq_len theta Hq Hk Hb Hs Hh Hb' Hh' Hpos HM HM')
      as (qo & ko & Hrun & _).
    exists (qo, ko); exact Hrun.
Qed.

(** Vectors of width 0 are no error: with head_dim 0 a non-empty batch of
    empty vectors is returned as it is (as float32 tensors). *)
Theorem apply_rotary_emb_width_zero
    (query key : tensor) (b s h b' h' : nat) (max_seq_len : Z) (theta : R) :
  shape query = [b; s; h; 0] -> shape key = [b'; s; h'; 0] ->
  wf query -> wf key ->
  0 < b -> 0 < s -> 0 < h -> 0 < b' -> 0 < h' ->
  apply_rotary_emb query key 0 max_seq_len theta
  = Ok (float query, float key).
Proof.
  intros Hq Hk Wq Wk Hb Hs Hh Hb' Hh'.
  destruct (@apply_rotary_emb_valid query key b s h b' h' 0 0%Z
              max_seq_len theta Hq Hk Hb Hs Hh Hb' Hh' eq_refl)
    as (qo & ko & Hrun & Sq & Sk & Dq & Dk & Wqo & Wko & _).
  rewrite Hrun; f_equal; f_equal.
  - apply float_eq; [exact Dq | exact Sq |].
    unfold wf in Wq, Wqo; rewrite Sq in Wqo; rewrite Hq in Wq, Wqo.
    simpl in Wq, Wqo; rewrite !Nat.mul_0_r in Wq, Wqo.
    apply length_zero_iff_nil in Wq, Wqo; congruence.
  - apply float_eq; [exact Dk | exact Sk |].
    unfold wf in Wk, Wko; rewrite Sk in Wko; rewrite Hk in Wk, Wko.
    simpl in Wk, Wko; rewrite !Nat.mul_0_r in Wk, Wko.
    apply length_zero_iff_nil in Wk, Wko; congruence.
Qed.

(** ** The broadcast helper at work *)

Lemma masked_shape_mask (nd : nat) (sx : list nat) :
  forall k, Forall2 (fun r x => r = 1 \/ r = x) (masked_shape nd k sx) sx.
Proof.
  induction sx as [| d sx IH]; intros k; [constructor |].
  change (masked_shape nd k (d :: sx))
    with ((if (k =? 1) || (k =? nd - 1) then d else 1)
          :: masked_shape nd (S k) sx).
  constructor; [| apply IH].
  destruct ((k =? 1) || (k =? nd - 1)); [right | left]; reflexivity.
Qed.

Lemma Forall2_mask_rev (a c : list nat) :
  Forall2 (fun r x => r = 1 \/ r = x) a c ->
  Forall2 (fun r x => r = 1 \/ r = x) (rev a) (rev c).
Proof.
  induction 1 as [| r x a c Hrx _ IH]; simpl; [constructor |].
  apply Forall2_app; [exact IH | constructor; [exact Hrx | constructor]].
Qed.

Lemma broadcast_rev_mask (a c : list nat) :
  Forall2 (fun r x => r = 1 \/ r = x) a c -> broadcast_rev a c = Some c.
Proof.
  induction 1 as [| r x a c Hrx _ IH]; simpl; [reflexivity |].
  rewrite IH.
  destruct Hrx as [-> | ->];
    [rewrite broadcast_dim_1_l | rewrite broadcast_dim_refl]; reflexivity.
Qed.

(** The view the helper returns for a target of at least 3 axes
    broadcasts against the target, and the broadcast has the target's
    shape. *)
Theorem reshape_for_broadcast_broadcasts_to_target (freqs_cis x : tensor) :
  3 <= ndim x ->
  shape freqs_cis = [nth 1 (shape x) 0; last (shape x) 0] ->
  exists r,
    reshape_for_broadcast freqs_cis x = Ok r
    /\ broadcast_shapes (shape r) (shape x) = Some (shape x)
    /\ broadcast_shapes (shape x) (shape r) = Some (shape x).
Proof.
  intros Hnd Hs.
  rewrite reshape_for_broadcast_passed by (lia || assumption).
  rewrite reshape_exact.
  unfold ndim in *.
  rewrite masked_shape_numel_rank3, Hs by exact Hnd.
  cbn [numel]; rewrite Nat.eqb_refl.
  eexists; split; [reflexivity |]; cbn [shape].
  pose proof (Forall2_mask_rev (masked_shape_mask (length (shape x))
                                  (shape x) 0)) as Hmask.
  split; unfold broadcast_shapes.
  - rewrite (broadcast_rev_mask Hmask); simpl.
    rewrite rev_involutive; reflexivity.
  - assert (Hsym : forall a c,
              Forall2 (fun r x => r = 1 \/ r = x) a c ->
              broadcast_rev c a = Some c).
    { clear; induction 1 as [| r x a c Hrx _ IH]; simpl; [reflexivity |].
      rewrite IH.
      destruct Hrx as [-> | ->];
        [rewrite broadcast_dim_1_r | rewrite broadcast_dim_refl];
        reflexivity. }
    rewrite (Hsym _ _ Hmask); simpl.
    rewrite rev_involutive; reflexivity.
Qed.

(** Multiplying a 4-dimensional target by the view the helper returns
    multiplies element (b, s, h, d) of the target by element (s, d) of
    the frequency tensor. *)
Theorem reshape_for_broadcast_mul
    (freqs_cis x : tensor) (b s h d : nat) :
  shape x = [b; s; h; d] -> shape freqs_cis = [s; d] ->
  exists r t,
    reshape_for_broadcast freqs_cis x = Ok r
    /\ shape r = [1; s; 1; d]
    /\ tmul x r = Ok t
    /\ shape t = shape x
    /\ forall bi si hi di, bi < b -> si < s -> hi < h -> di < d ->
         get t [bi; si; hi; di]
         = (get x [bi; si; hi; di] * get freqs_cis [si; di])%R.
Proof.
  intros Hx Hf.
  rewrite reshape_for_broadcast_passed
    by (unfold ndim; rewrite ?Hx, ?Hf; simpl; reflexivity || lia).
  unfold ndim; rewrite Hx.
  change (masked_shape (length [b; s; h; d]) 0 [b; s; h; d])
    with [1; s; 1; d].
  rewrite reshape_exact, Hf.
  replace (numel [1; s; 1; d] =? numel [s; d]) with true
    by (symmetry; apply Nat.eqb_eq; simpl; lia).
  set (r := mkTensor (t_dtype freqs_cis) [1; s; 1; d] (data freqs_cis)).
  destruct (@binop_table Rmult x r b s h d Hx eq_refl)
    as (t & Ht & St & _ & _ & Gt).
  exists r, t.
  split; [reflexivity |]. split; [reflexivity |].
  split; [exact Ht |]. split; [congruence |].
  intros bi si hi di Hbi Hsi Hhi Hdi.
  rewrite Gt by assumption.
  f_equal; unfold get, r; cbn [shape data]; rewrite Hf.
  f_equal; simpl; lia.
Qed.

(** ** The further properties at sample inputs *)

Lemma apply_rotary_emb_query_rank_witness :
  apply_rotary_emb sample_rank2 sample_key 2 8 10000 = Raise ValueError.
Proof.
  apply apply_rotary_emb_query_rank.
  unfold ndim; simpl; lia.
Defined.

Lemma apply_rotary_emb_only_runtime_errors_witness :
  apply_rotary_emb sample_odd sample_key 2 8 10000 <> Raise AssertionError
  /\ apply_rotary_emb sample_odd sample_key 2 8 10000 <> Raise IndexError
  /\ apply_rotary_emb sample_odd sample_key 2 8 10000 <> Raise ValueError.
Proof.
  assert (Hrange : int64_range 2) by (unfold int64_range; lia).
  pose proof (@apply_rotary_emb_only_runtime_errors sample_odd sample_key
                2%Z 8%Z 10000%R eq_refl Hrange) as H.
  repeat split; intros E; apply H in E; discriminate E.
Defined.

Lemma apply_rotary_emb_empty_input_witness :
  apply_rotary_emb sample_empty sample_key 2 8 10000 = Raise RuntimeError.
Proof.
  apply (@apply_rotary_emb_empty_input sample_empty sample_key
           0 2 1 2 [1; 2; 2] 2 2%Z 8%Z 10000%R eq_refl eq_refl).
  left; reflexivity.
Defined.

Lemma apply_rotary_emb_negative_head_dim_witness :
  apply_rotary_emb sample_query sample_key (-2) 8 10000 = Raise RuntimeError.
Proof.
  apply apply_rotary_emb_negative_head_dim;
    [reflexivity | unfold int64_range; lia | lia].
Defined.

Lemma apply_rotary_emb_returns_input_shapes_witness :
  exists qo ko,
    apply_rotary_emb sample_wide sample_key 2 8 10000 = Ok (qo, ko)
    /\ shape qo = [1; 2; 1; 4] /\ shape ko = [1; 2; 2; 2]
    /\ wf qo /\ wf ko.
Proof.
  eexists; eexists.
  refine ((fun H => conj H
             (@apply_rotary_emb_returns_input_shapes _ _ _ _ _ _ _ H)) _).
  lazy -[Rplus Rmult Rminus Rdiv Rinv Ropp cos sin Rpower IZR INR].
  reflexivity.
Defined.

Lemma apply_rotary_emb_position_zero_unchanged_witness :
  exists qo ko,
    apply_rotary_emb sample_query sample_key 2 8 10000 = Ok (qo, ko)
    /\ pair_at qo 0 0 0 0 = (1, 2)%R
    /\ pair_at ko 0 0 1 0 = (0, 1)%R.
Proof.
  destruct (@apply_rotary_emb_position_zero_unchanged sample_query
              sample_key 1 2 1 1 2 1 2%Z 8%Z 10000%R)
    as (qo & ko & Hrun & Gq & Gk);
    try reflexivity; try lia; try exact theta_10000_pos.
  exists qo, ko.
  split; [exact Hrun |].
  split; [apply (Gq 0 0 0); lia | apply (Gk 0 1 0); lia].
Defined.

Lemma apply_rotary_emb_first_pair_angle_witness :
  exists qo ko,
    apply_rotary_emb sample_query sample_key 2 8 10000 = Ok (qo, ko)
    /\ pair_at qo 0 1 0 0 = rotate (3, 4)%R (INR 1)
    /\ pair_at ko 0 1 1 0 = rotate (3, 5)%R (INR 1).
Proof.
  destruct (@apply_rotary_emb_first_pair_angle sample_query
              sample_key 1 2 1 1 2 1 2%Z 8%Z 10000%R)
    as (qo & ko & Hrun & Gq & Gk); try reflexivity; try lia.
  exists qo, ko.
  split; [exact Hrun |].
  split; [apply (Gq 0 1 0); lia | apply (Gk 0 1 1); lia].
Defined.

Lemma apply_rotary_emb_twice_witness :
  exists qo ko qo2 ko2,
    apply_rotary_emb sample_query sample_key 2 8 10000 = Ok (qo, ko)
    /\ apply_rotary_emb qo ko 2 8 10000 = Ok (qo2, ko2)
    /\ pair_at qo2 0 1 0 0
       = rotate (3, 4)%R (2 * spec_angle 10000 2 1 0)%R.
Proof.
  destruct (@apply_rotary_emb_twice sample_query
              sample_key 1 2 1 1 2 1 2%Z 8%Z 10000%R)
    as (qo & ko & qo2 & ko2 & Hrun & Hrun2 & Gq & _);
    try reflexivity; try lia; try exact theta_10000_pos.
  exists qo, ko, qo2, ko2.
  split; [exact Hrun |]. split; [exact Hrun2 |].
  apply (Gq 0 1 0 0); lia.
Defined.

Lemma apply_rotary_emb_preserves_vector_norm_witness :
  exists qo ko,
    apply_rotary_emb sample_query sample_key 2 8 10000 = Ok (qo, ko)
    /\ vec_sq_norm qo 0 1 0 1 = vec_sq_norm sample_query 0 1 0 1
    /\ vec_sq_norm ko 0 1 1 1 = vec_sq_norm sample_key 0 1 1 1.
Proof.
  destruct (@apply_rotary_emb_preserves_vector_norm sample_query
              sample_key 1 2 1 1 2 1 2%Z 8%Z 10000%R)
    as (qo & ko & Hrun & Nq & Nk);
    try reflexivity; try lia; try exact theta_10000_pos.
  exists qo, ko.
  split; [exact Hrun |].
  split; [apply (Nq 0 1 0); lia | apply (Nk 0 1 1); lia].
Defined.

Lemma apply_rotary_emb_score_relative_witness :
  exists qo ko,
    apply_rotary_emb sample_repeat sample_repeat 2 8 10000 = Ok (qo, ko)
    /\ vec_dot qo 0 1 0 ko 0 1 0 1 = vec_dot qo 0 0 0 ko 0 0 0 1.
Proof.
  apply (@apply_rotary_emb_score_relative sample_repeat sample_repeat
           1 2 1 1 1 1 2%Z 8%Z 10000%R
           eq_refl eq_refl Nat.lt_0_1 Nat.lt_0_2 Nat.lt_0_1 Nat.lt_0_1
           Nat.lt_0_1 eq_refl theta_10000_pos
           0 0 0 0 1 1 0 0);
    try lia;
    try (intros f Hf; assert (f = 0) by lia; subst f; reflexivity).
Defined.

Lemma apply_rotary_emb_outputs_independent_witness :
  exists qo ko qo2 ko2,
    apply_rotary_emb sample_query sample_key 2 8 10000 = Ok (qo, ko)
    /\ apply_rotary_emb sample_query sample_repeat 2 8 10000 = Ok (qo, ko2)
    /\ apply_rotary_emb sample_repeat sample_key 2 8 10000 = Ok (qo2, ko).
Proof.
  apply (@apply_rotary_emb_outputs_independent sample_query sample_key
           1 2 1 1 2 1 2%Z 8%Z 10000%R
           eq_refl eq_refl Nat.lt_0_1 Nat.lt_0_2 Nat.lt_0_1 Nat.lt_0_1
           Nat.lt_0_2 eq_refl
           sample_repeat sample_repeat 1 1 1 1);
    try reflexivity; lia.
Defined.

Lemma apply_rotary_emb_single_frequency_witness :
  exists qo ko,
    apply_rotary_emb sample_wide sample_key 2 8 10000 = Ok (qo, ko)
    /\ pair_at qo 0 1 0 1 = rotate (7, 8)%R (INR 1)
    /\ pair_at ko 0 1 1 0 = rotate (3, 5)%R (INR 1).
Proof.
  destruct (@apply_rotary_emb_single_frequency sample_wide sample_key
              1 2 1 1 2 2 1 2%Z 8%Z 10000%R)
    as (qo & ko & Hrun & Gq & Gk);
    try reflexivity; try lia.
  exists qo, ko.
  split; [exact Hrun |].
  split; [apply (Gq 0 1 0 1); lia | apply (Gk 0 1 1 0); lia].
Defined.

Lemma apply_rotary_emb_returns_iff_witness :
  (exists r, apply_rotary_emb sample_wide sample_wide 3 8 10000 = Ok r)
  /\ ~ (exists r, apply_rotary_emb sample_wide sample_key 3 8 10000 = Ok r).
Proof.
  split.
  - apply (@apply_rotary_emb_returns_iff sample_wide sample_wide
             1 2 1 4 1 1 4 3%Z 8%Z 10000%R); try reflexivity; try lia.
    split; [lia |].
    exists 2, 2; repeat split; left; reflexivity.
  - intros Hr.
    apply (@apply_rotary_emb_returns_iff sample_wide sample_key
             1 2 1 4 1 2 2 3%Z 8%Z 10000%R) in Hr;
      try reflexivity; try lia.
    destruct Hr as (_ & m & m' & _ & Hm' & _ & [HM | HM]);
      unfold n_freq in HM; simpl in HM; lia.
Defined.

Lemma apply_rotary_emb_width_zero_witness :
  apply_rotary_emb sample_width0 sample_width0 0 8 10000
  = Ok (sample_width0, sample_width0).
Proof.
  apply (@apply_rotary_emb_width_zero sample_width0 sample_width0
           1 2 1 1 1 8%Z 10000%R); try reflexivity; lia.
Defined.

Lemma reshape_for_broadcast_broadcasts_to_target_witness :
  exists r,
    reshape_for_broadcast sample_freqs sample_query = Ok r
    /\ broadcast_shapes (shape r) [1; 2; 1; 2] = Some [1; 2; 1; 2]
    /\ broadcast_shapes [1; 2; 1; 2] (shape r) = Some [1; 2; 1; 2].
Proof.
  apply (@reshape_for_broadcast_broadcasts_to_target sample_freqs
           sample_query); [unfold ndim; simpl; lia | reflexivity].
Defined.

Lemma reshape_for_broadcast_mul_witness :
  exists r t,
    reshape_for_broadcast sample_freqs sample_query = Ok r
    /\ tmul sample_query r = Ok t
    /\ get t [0; 1; 0; 1] = (4 * 4)%R.
Proof.
  destruct (@reshape_for_broadcast_mul sample_freqs sample_query 1 2 1 2
              eq_refl eq_refl)
    as (r & t & Hr & _ & Ht & _ & Gt).
  exists r, t.
  split; [exact Hr |]. split; [exact Ht |].
  apply (Gt 0 1 0 1); lia.
Defined.
